(** * ModalDB: modal item stores and the child address registry

    A shallow embedding of [ModalDB/ModalDicts.py] and
    [ModalDB/ChildContainer.py], and the properties proved about them.

    Python objects that the code shares and mutates (the dictionaries of
    the MongoDB document) live in an explicit heap; a store's or a
    container's attribute that holds such a dictionary holds a reference to
    it, as in Python.  Methods are computations in a state-and-exception
    monad in which an exception keeps the state reached so far. *)

From Stdlib Require Import Ascii.
From stdpp Require Import gmap strings list fin_maps pretty.

Open Scope string_scope.

(* ===================================================================== *)
(** * Python values, exceptions, heap                                     *)
(* ===================================================================== *)

Module Py.

Abbreviation loc := positive (only parsing).

(** The values the two modules handle.  [VRef] is a reference to a
    dictionary object of the heap; [VStr] is a byte string (a [str] of
    Python 2), on which [str()] is the identity. *)
Inductive pyval :=
| VNone
| VBool (b : bool)
| VInt (z : Z)
| VStr (s : string)
| VRef (l : loc).

#[global] Instance pyval_eq_dec : EqDecision pyval.
Proof. solve_decision. Defined.

(** Exceptions, by class; the argument is the message (for a [KeyError]
    raised by a dictionary lookup, the missing key).  The text of the
    messages of errors raised by the interpreter itself is abstracted. *)
Inductive exn :=
| Exception (msg : string)
| TypeError (msg : string)
| KeyError (msg : string)
| AttributeError (msg : string)
| AssertionError
| OSError (msg : string).

#[global] Instance exn_eq_dec : EqDecision exn.
Proof. solve_decision. Defined.

Inductive res (A : Type) :=
| Ok (a : A)
| Raise (e : exn).
Arguments Ok {A} a.
Arguments Raise {A} e.

(** State and exception: a raised exception does not roll the state back. *)
Definition M (S A : Type) : Type := S → res A * S.

Definition ret {S A} (a : A) : M S A := λ s, (Ok a, s).

Definition bind {S A B} (m : M S A) (k : A → M S B) : M S B :=
  λ s, match m s with
       | (Ok a, s') => k a s'
       | (Raise e, s') => (Raise e, s')
       end.

Definition raise {S A} (e : exn) : M S A := λ s, (Raise e, s).

Definition gets {S A} (f : S → A) : M S A := λ s, (Ok (f s), s).

Definition modify {S} (f : S → S) : M S unit := λ s, (Ok tt, f s).

Definition lift_res {S A} (r : res A) : M S A := λ s, (r, s).

Notation "'let*' x ':=' c 'in' k" := (bind c (λ x, k))
  (at level 10, x pattern, c at level 100, k at level 200).

(** [for x in xs: body(x)] *)
Fixpoint for_each {S A} (xs : list A) (body : A → M S unit) : M S unit :=
  match xs with
  | [] => ret tt
  | x :: xs' => let* _ := body x in for_each xs' body
  end.

(** A dictionary comprehension [{k: f(k) for k in ks}] whose values may raise. *)
Fixpoint dict_comp {V} (f : string → res V) (ks : list string) : res (gmap string V) :=
  match ks with
  | [] => Ok ∅
  | k :: ks' =>
      match f k with
      | Raise e => Raise e
      | Ok v =>
          match dict_comp f ks' with
          | Raise e => Raise e
          | Ok m => Ok (<[k := v]> m)
          end
      end
  end.

Abbreviation pydict := (gmap string pyval) (only parsing).
Abbreviation pyheap := (gmap loc (gmap string pyval)) (only parsing).

Definition is_none (v : pyval) : bool :=
  match v with VNone => true | _ => false end.

(** Truth value of an object, as [if v:] tests it.  A dictionary is true
    when it is not empty. *)
Definition truthy (h : pyheap) (v : pyval) : bool :=
  match v with
  | VNone => false
  | VBool b => b
  | VInt z => negb (Z.eqb z 0)
  | VStr s => negb (String.eqb s "")
  | VRef l => match h !! l with
              | Some d => negb (bool_decide (d = ∅))
              | None => true
              end
  end.

(** [v[k]] for a string [k]: defined on dictionaries only. *)
Definition subscript (h : pyheap) (v : pyval) (k : string) : res pyval :=
  match v with
  | VRef l =>
      match h !! l with
      | Some d => match d !! k with
                  | Some x => Ok x
                  | None => Raise (KeyError k)
                  end
      | None => Raise (TypeError "not subscriptable")
      end
  | _ => Raise (TypeError "not subscriptable")
  end.

(** [v[k] = x]: updates the dictionary object in place. *)
Definition assign_subscript (h : pyheap) (v : pyval) (k : string) (x : pyval) : res unit * pyheap :=
  match v with
  | VRef l =>
      match h !! l with
      | Some d => (Ok tt, <[l := <[k := x]> d]> h)
      | None => (Raise (TypeError "no item assignment"), h)
      end
  | _ => (Raise (TypeError "no item assignment"), h)
  end.

(** ** Strings *)

(** [s.startswith(pre)] *)
Fixpoint startswith (s pre : string) {struct pre} : bool :=
  match pre with
  | EmptyString => true
  | String c pre' =>
      match s with
      | EmptyString => false
      | String d s' => if Ascii.eqb c d then startswith s' pre' else false
      end
  end.

(** [s.endswith("/")] *)
Fixpoint ends_with_slash (s : string) : bool :=
  match s with
  | EmptyString => false
  | String c EmptyString => Ascii.eqb c "/"%char
  | String _ s' => ends_with_slash s'
  end.

(** [s[n:]] *)
Fixpoint slice_from (n : nat) (s : string) : string :=
  match n with
  | O => s
  | S n' => match s with
            | EmptyString => EmptyString
            | String _ s' => slice_from n' s'
            end
  end.

(** [os.path.join(a, b)] of posixpath *)
Definition os_path_join (a b : string) : string :=
  if startswith b "/" then b
  else if (String.eqb a "" || ends_with_slash a)%bool then a +:+ b
  else a +:+ "/" +:+ b.

(** ** File system: one node per path *)

Inductive fnode :=
| File (content : string)
| Dir.

#[global] Instance fnode_eq_dec : EqDecision fnode.
Proof. solve_decision. Defined.

Abbreviation filesys := (gmap string fnode) (only parsing).

(** [os.path.exists(p)] *)
Definition os_path_exists (f : filesys) (p : string) : bool :=
  match f !! p with Some _ => true | None => false end.

(** [os.remove(p)]: removes a file; fails on a missing path and on a directory. *)
Definition os_remove (f : filesys) (p : string) : res unit * filesys :=
  match f !! p with
  | Some (File _) => (Ok tt, delete p f)
  | Some Dir => (Raise (OSError "Is a directory"), f)
  | None => (Raise (OSError "No such file or directory"), f)
  end.

End Py.

Import Py.

Notation "'let?' x ':=' r 'in' k" :=
  (match r with Ok x => k | Raise e => Raise e end)
  (at level 10, x name, r at level 100, k at level 200, only parsing).

(* ===================================================================== *)
(** * ModalDicts.py                                                       *)
(* ===================================================================== *)

Module ModalDicts.

(** ** The datatype schema

    A schema maps an item name to its declaration, a dictionary with the
    entries ['mode'] and, for items on disk, ['filename'], ['load_func']
    and ['save_func'].  An entry that is missing is [None] here; the
    entry ['save_func'] may also be there and hold Python's [None]. *)

(** A load function reads the file system at a path; a save function
    writes it. Neither touches the heap of the document. *)
Definition load_fn : Type := string → gmap string fnode → res pyval.
Definition save_fn : Type := pyval → string → gmap string fnode → res unit * gmap string fnode.

Record schema_item := SchemaItem {
  s_mode : string;
  s_filename : option string;
  s_load_func : option load_fn;
  s_save_func : option (option save_fn)
}.

Abbreviation datatype_schema := (gmap string schema_item) (only parsing).

(** ** The objects *)

Inductive dict_class := MemoryDict | DiskDict.

(** The class attribute [mode]. *)
Definition mode (c : dict_class) : string :=
  match c with
  | MemoryDict => "memory"
  | DiskDict => "disk"
  end.

(** The attributes of a [ModalDict] instance.  [metadata] is the store's
    own dictionary, but its values are the objects [mongo_doc['items'][k]]
    themselves, so they are kept as the values found there (references).
    A [MemoryDict] has no [load_funcs], [save_funcs] or [paths]: they are
    empty. *)
Record ModalDict := mkModalDict {
  cls : dict_class;
  mongo_doc : pyval;
  keys : gset string;
  metadata : gmap string pyval;
  data : gmap string pyval;
  load_funcs : gmap string load_fn;
  save_funcs : gmap string (option save_fn);
  paths : gmap string string
}.

Definition with_data (dat : gmap string pyval) (d : ModalDict) : ModalDict :=
  mkModalDict (cls d) (mongo_doc d) (keys d) (metadata d) dat
              (load_funcs d) (save_funcs d) (paths d).

(** What a method runs on: the instance, the heap, the file system. *)
Record dstate := mkDState {
  self : ModalDict;
  heap : gmap loc (gmap string pyval);
  fs : gmap string fnode
}.

Definition with_self (d : ModalDict) (s : dstate) : dstate :=
  mkDState d (heap s) (fs s).
Definition with_heap (h : gmap loc (gmap string pyval)) (s : dstate) : dstate :=
  mkDState (self s) h (fs s).
Definition with_fs (f : gmap string fnode) (s : dstate) : dstate :=
  mkDState (self s) (heap s) f.

(** ** ModalDict *)

(** [mongo_doc['items'][k]] *)
Definition doc_item (h : gmap loc (gmap string pyval)) (doc : pyval) (k : string) : res pyval :=
  let? items := subscript h doc "items" in subscript h items k.

(** [ModalDict.__init__]; the comprehensions visit the keys in the order
    [elements] lists them. *)
Definition ModalDict_init (c : dict_class) (doc : pyval) (schema : datatype_schema)
    (h : gmap loc (gmap string pyval)) : res ModalDict :=
  let ks : gset string := dom (filter (λ kv, s_mode kv.2 = mode c) schema) in
  let? md := dict_comp (doc_item h doc) (elements ks) in
  Ok (mkModalDict c doc ks md (gset_to_gmap VNone ks) ∅ ∅ ∅).

(** [key in self] *)
Definition __contains__ (d : ModalDict) (key : string) : bool :=
  bool_decide (key ∈ keys d).

Definition detect_keyerror (key : string) : M dstate unit :=
  λ s, if __contains__ (self s) key then (Ok tt, s)
       else (Raise (KeyError ("No such item: " +:+ key)), s).

(** [self.data[key]] *)
Definition data_get (key : string) : M dstate pyval :=
  λ s, match data (self s) !! key with
       | Some v => (Ok v, s)
       | None => (Raise (KeyError key), s)
       end.

(** [self.data[key] = value] *)
Definition data_set (key : string) (value : pyval) : M dstate unit :=
  modify (λ s, with_self (with_data (<[key := value]> (data (self s))) (self s)) s).

(** [del self.data[key]] *)
Definition data_del (key : string) : M dstate unit :=
  λ s, match data (self s) !! key with
       | Some _ => (Ok tt, with_self (with_data (delete key (data (self s))) (self s)) s)
       | None => (Raise (KeyError key), s)
       end.

(** [self.paths[key]] *)
Definition path_get (key : string) : M dstate string :=
  λ s, match paths (self s) !! key with
       | Some p => (Ok p, s)
       | None => (Raise (KeyError key), s)
       end.

(** [self.metadata[key]['present'] = v] *)
Definition set_present (key : string) (v : pyval) : M dstate unit :=
  λ s, match metadata (self s) !! key with
       | None => (Raise (KeyError key), s)
       | Some m => let '(r, h') := assign_subscript (heap s) m "present" v in (r, with_heap h' s)
       end.

(** [self.metadata[key]['present']] *)
Definition get_present (key : string) : M dstate pyval :=
  λ s, match metadata (self s) !! key with
       | None => (Raise (KeyError key), s)
       | Some m => (subscript (heap s) m "present", s)
       end.

(** ** MemoryDict *)

Definition MemoryDict_get_item (key : string) : M dstate pyval :=
  let* _ := detect_keyerror key in
  data_get key.

Definition MemoryDict_set_item (key : string) (value : pyval) : M dstate unit :=
  data_set key value.

Definition MemoryDict_del_item (key : string) : M dstate unit :=
  data_set key VNone.

(** ** DiskDict *)

Definition DiskDict_item_present (key : string) : M dstate bool :=
  let* p := path_get key in
  gets (λ s, os_path_exists (fs s) p).

Definition DiskDict_load_item (key : string) : M dstate unit :=
  λ s, if negb (__contains__ (self s) key) then (Raise AssertionError, s)
       else match load_funcs (self s) !! key with
            | None => (Raise (KeyError key), s)
            | Some f =>
                match paths (self s) !! key with
                | None => (Raise (KeyError key), s)
                | Some p =>
                    match f p (fs s) with
                    | Raise e => (Raise e, s)
                    | Ok v => data_set key v s
                    end
                end
            end.

Definition DiskDict_save_item (key : string) : M dstate unit :=
  λ s, if negb (__contains__ (self s) key) then (Raise AssertionError, s)
       else match save_funcs (self s) !! key with
            | None => (Raise (KeyError key), s)
            | Some None => (Raise AssertionError, s)
            | Some (Some f) =>
                match data (self s) !! key with
                | None => (Raise (KeyError key), s)
                | Some v =>
                    match paths (self s) !! key with
                    | None => (Raise (KeyError key), s)
                    | Some p => let '(r, f') := f v p (fs s) in (r, with_fs f' s)
                    end
                end
            end.

Definition DiskDict_get_item (key : string) : M dstate pyval :=
  let* v := data_get key in
  let* _ := (if is_none v then
               let* b := DiskDict_item_present key in
               if b then DiskDict_load_item key else ret tt
             else ret tt) in
  data_get key.

Definition DiskDict_set_item (key : string) (value : pyval) : M dstate unit :=
  let* _ := data_set key value in
  DiskDict_save_item key.

Definition DiskDict_del_item (key : string) : M dstate unit :=
  let* _ := data_del key in
  let* p := path_get key in
  let* _ := (λ s, let '(r, f') := os_remove (fs s) p in (r, with_fs f' s)) in
  data_set key VNone.

(** ** The hooks, selected by the class of the instance *)

Definition get_item (key : string) : M dstate pyval :=
  λ s, match cls (self s) with
       | MemoryDict => MemoryDict_get_item key s
       | DiskDict => DiskDict_get_item key s
       end.

Definition set_item (key : string) (value : pyval) : M dstate unit :=
  λ s, match cls (self s) with
       | MemoryDict => MemoryDict_set_item key value s
       | DiskDict => DiskDict_set_item key value s
       end.

Definition del_item (key : string) : M dstate unit :=
  λ s, match cls (self s) with
       | MemoryDict => MemoryDict_del_item key s
       | DiskDict => DiskDict_del_item key s
       end.

(** [self[key]]: [____getitem___] *)
Definition __getitem__ (key : string) : M dstate pyval :=
  let* _ := detect_keyerror key in
  get_item key.

(** [MemoryDict.item_present]: [not self[key] is None] *)
Definition MemoryDict_item_present (key : string) : M dstate bool :=
  let* v := __getitem__ key in
  ret (negb (is_none v)).

Definition item_present (key : string) : M dstate bool :=
  λ s, match cls (self s) with
       | MemoryDict => MemoryDict_item_present key s
       | DiskDict => DiskDict_item_present key s
       end.

(** [self[key] = value]: [____setitem___] *)
Definition __setitem__ (key : string) (value : pyval) : M dstate unit :=
  let* _ := detect_keyerror key in
  let* _ := set_present key (VBool true) in
  set_item key value.

(** [del self[key]]: [____delitem___] *)
Definition __delitem__ (key : string) : M dstate unit :=
  let* _ := detect_keyerror key in
  let* _ := set_present key (VBool false) in
  del_item key.

(** The right-hand side is evaluated before the target of the assignment. *)
Definition update_item_metadata : M dstate unit :=
  let* ks := gets (λ s, elements (keys (self s))) in
  for_each ks (λ k, let* b := item_present k in set_present k (VBool b)).

(** [[k for k in ks if self.metadata[k]['present']]] *)
Fixpoint collect_present (ks : list string) : M dstate (list string) :=
  match ks with
  | [] => ret []
  | k :: ks' =>
      let* v := get_present k in
      let* b := gets (λ s, truthy (heap s) v) in
      let* r := collect_present ks' in
      ret (if b then k :: r else r)
  end.

Definition present_items : M dstate (gset string) :=
  let* _ := update_item_metadata in
  let* ks := gets (λ s, elements (keys (self s))) in
  let* r := collect_present ks in
  ret (list_to_set r).

Definition absent_items : M dstate (gset string) :=
  let* p := present_items in
  let* ks := gets (λ s, keys (self s)) in
  ret (ks ∖ p).

(** ** Constructors *)

(** Runs [update_item_metadata] on a new instance and returns it. *)
Definition finish_init (d : ModalDict) (h : gmap loc (gmap string pyval))
    (f : gmap string fnode) : res ModalDict * gmap loc (gmap string pyval) :=
  match update_item_metadata (mkDState d h f) with
  | (Ok _, s) => (Ok (self s), heap s)
  | (Raise e, s) => (Raise e, heap s)
  end.

(** [mongo_doc['items'][k]['data']] *)
Definition doc_item_data (h : gmap loc (gmap string pyval)) (doc : pyval) (k : string) : res pyval :=
  let? it := doc_item h doc k in subscript h it "data".

Definition MemoryDict_init (doc : pyval) (schema : datatype_schema)
    (h : gmap loc (gmap string pyval)) (f : gmap string fnode)
    : res ModalDict * gmap loc (gmap string pyval) :=
  match ModalDict_init MemoryDict doc schema h with
  | Raise e => (Raise e, h)
  | Ok d0 =>
      match dict_comp (doc_item_data h doc) (elements (keys d0)) with
      | Raise e => (Raise e, h)
      | Ok dat => finish_init (with_data dat d0) h f
      end
  end.

(** An entry of the declaration of item [k]. *)
Definition schema_entry {A} (schema : datatype_schema) (field : schema_item → option A)
    (name : string) (k : string) : res A :=
  match schema !! k with
  | None => Raise (KeyError k)
  | Some it => match field it with
               | Some x => Ok x
               | None => Raise (KeyError name)
               end
  end.

(** [os.path.join(root, items[k]['filename'])]; a [root] that is not a
    string is only looked at when the file name is relative. *)
Definition item_path (schema : datatype_schema) (root : pyval) (k : string) : res string :=
  let? fn := schema_entry schema s_filename "filename" k in
  match root with
  | VStr r => Ok (os_path_join r fn)
  | _ => if startswith fn "/" then Ok fn else Raise (AttributeError "endswith")
  end.

Definition DiskDict_init (doc : pyval) (schema : datatype_schema)
    (h : gmap loc (gmap string pyval)) (f : gmap string fnode)
    : res ModalDict * gmap loc (gmap string pyval) :=
  match ModalDict_init DiskDict doc schema h with
  | Raise e => (Raise e, h)
  | Ok d0 =>
      let ks := elements (keys d0) in
      match
        (let? root := subscript h doc "root" in
         let? lf := dict_comp (schema_entry schema s_load_func "load_func") ks in
         let? sf := dict_comp (schema_entry schema s_save_func "save_func") ks in
         let? ps := dict_comp (item_path schema root) ks in
         Ok (mkModalDict DiskDict doc (keys d0) (metadata d0)
                         (gset_to_gmap VNone (keys d0)) lf sf ps))
      with
      | Raise e => (Raise e, h)
      | Ok d => finish_init d h f
      end
  end.

(** ** Calls from outside, and sequences of them *)

Inductive call :=
| Get (key : string)
| Set_ (key : string) (value : pyval)
| Del (key : string)
| ItemPresent (key : string)
| PresentItems
| AbsentItems.

Inductive answer :=
| AVal (v : pyval)
| ABool (b : bool)
| AKeys (ks : gset string)
| ADone.

Definition run_call (c : call) : M dstate answer :=
  match c with
  | Get k => let* v := __getitem__ k in ret (AVal v)
  | Set_ k v => let* _ := __setitem__ k v in ret ADone
  | Del k => let* _ := __delitem__ k in ret ADone
  | ItemPresent k => let* b := item_present k in ret (ABool b)
  | PresentItems => let* ks := present_items in ret (AKeys ks)
  | AbsentItems => let* ks := absent_items in ret (AKeys ks)
  end.

(** Runs the calls in order; a call that raises does not stop the caller. *)
Fixpoint run_calls (cs : list call) (s : dstate) : list (res answer) * dstate :=
  match cs with
  | [] => ([], s)
  | c :: cs' =>
      let '(r, s') := run_call c s in
      let '(rs, s'') := run_calls cs' s' in
      (r :: rs, s'')
  end.

(** ** Notions the statements use *)

(** [metadata[k]] is a dictionary of the heap. *)
Definition meta_ok (d : ModalDict) (h : gmap loc (gmap string pyval)) (k : string) : bool :=
  match metadata d !! k with
  | Some (VRef l) => bool_decide (is_Some (h !! l))
  | _ => false
  end.

(** Key [k] is set up as the constructors set a declared key up: it is in
    [keys], its metadata is a dictionary, [data] has an entry for it and,
    in a [DiskDict], so have [paths], [load_funcs] and [save_funcs]. *)
Definition key_ok (d : ModalDict) (h : gmap loc (gmap string pyval)) (k : string) : bool :=
  __contains__ d k && meta_ok d h k && bool_decide (is_Some (data d !! k))
  && match cls d with
     | MemoryDict => true
     | DiskDict =>
         bool_decide (is_Some (paths d !! k))
         && bool_decide (is_Some (load_funcs d !! k))
         && bool_decide (is_Some (save_funcs d !! k))
     end.

(** The objects a store may write to: those its [metadata] refers to. *)
Definition meta_loc (d : ModalDict) (l : loc) : Prop :=
  ∃ k, metadata d !! k = Some (VRef l).

(** The objects [mongo_doc['items'][k]]. *)
Definition doc_item_loc (h : gmap loc (gmap string pyval)) (doc : pyval) (l : loc) : Prop :=
  ∃ k, doc_item h doc k = Ok (VRef l).

(** Heap [h'] is heap [h] except for the entry ['present'] of objects
    among [locs]. *)
Definition only_present (locs : loc → Prop) (h h' : gmap loc (gmap string pyval)) : Prop :=
  ∀ l, h' !! l = h !! l
       ∨ (locs l ∧ ∃ o o', h !! l = Some o ∧ h' !! l = Some o'
                           ∧ delete "present" o' = delete "present" o).

(** The heap without the entries ['present']. *)
Definition strip (h : gmap loc (gmap string pyval)) : gmap loc (gmap string pyval) :=
  delete "present" <$> h.

(** The same store over the same files, on heaps that differ in entries
    ['present'] only. *)
Definition same_but_present (s1 s2 : dstate) : Prop :=
  self s1 = self s2 ∧ fs s1 = fs s2 ∧ strip (heap s1) = strip (heap s2).

(** The metadata of key [k] is the same dictionary in both heaps, and
    tells by a boolean whether the item is present. *)
Definition agree (s1 s2 : dstate) (k : string) : Prop :=
  ∃ l o b, metadata (self s1) !! k = Some (VRef l)
           ∧ heap s1 !! l = Some o ∧ heap s2 !! l = Some o
           ∧ o !! "present" = Some (VBool b).

(** One round of the loop of [update_item_metadata]. *)
Definition refresh (k : string) : M dstate unit :=
  let* b := item_present k in set_present k (VBool b).

(** State [s'] comes from state [s] by writes of the store: same keys,
    same metadata, and a heap that differs in the flags only. *)
Definition stable (s s' : dstate) : Prop :=
  keys (self s') = keys (self s)
  ∧ metadata (self s') = metadata (self s)
  ∧ only_present (meta_loc (self s)) (heap s) (heap s').

(** A method that only makes such writes. *)
Definition frames {A} (m : M dstate A) : Prop :=
  ∀ s, stable s (m s).2.

(** Two states of a [MemoryDict] that differ in the flags only. *)
Definition alike (s1 s2 : dstate) : Prop :=
  same_but_present s1 s2 ∧ cls (self s1) = MemoryDict.

(** A method that cannot tell such states apart. *)
Definition blind {A} (m : M dstate A) : Prop :=
  ∀ s1 s2, alike s1 s2 → (m s1).1 = (m s2).1 ∧ alike (m s1).2 (m s2).2.

(** A method that leaves the class and the tables of a [DiskDict] alone
    and, when it returns normally, leaves no entry of the cache deleted. *)
Definition keeps {A} (m : M dstate A) : Prop :=
  ∀ s, cls (self (m s).2) = cls (self s)
       ∧ paths (self (m s).2) = paths (self s)
       ∧ load_funcs (self (m s).2) = load_funcs (self s)
       ∧ save_funcs (self (m s).2) = save_funcs (self s)
       ∧ (∀ a, (m s).1 = Ok a →
               ∀ k, is_Some (data (self s) !! k) → is_Some (data (self (m s).2) !! k)).

(** Every declared key is set up. *)
Definition store_ok (d : ModalDict) (h : gmap loc (gmap string pyval)) : bool :=
  forallb (key_ok d h) (elements (keys d)).

(** No two keys share their metadata object (the items of a document
    are separate dictionaries). *)
Definition meta_distinct (d : ModalDict) : bool :=
  bool_decide (NoDup (map_to_list (metadata d)).*2).

(** What [item_present(k)] finds in state [s] for a key that is set up:
    a cached value other than [None] in a [MemoryDict], a file at the path
    of the key in a [DiskDict]. *)
Definition present_now (s : dstate) (k : string) : bool :=
  match cls (self s) with
  | MemoryDict => match data (self s) !! k with
                  | Some v => negb (is_none v)
                  | None => false
                  end
  | DiskDict => match paths (self s) !! k with
                | Some p => os_path_exists (fs s) p
                | None => false
                end
  end.

(** The declared keys of a mode, as [ModalDict.__init__] selects them. *)
Definition schema_keys (c : dict_class) (schema : gmap string schema_item) : gset string :=
  dom (filter (λ kv, s_mode kv.2 = mode c) schema).

End ModalDicts.

(* ===================================================================== *)
(** * ChildContainer.py                                                   *)
(* ===================================================================== *)

Module ChildContainer.

(** A datatype (a Python class): its identity, its [__name__] and the
    string [str] gives for it. *)
Record pyclass := mkClass {
  cls_id : nat;
  cls_name : string;
  cls_repr : string
}.

#[global] Instance pyclass_eq_dec : EqDecision pyclass.
Proof. solve_decision. Defined.

(** What a caller may pass in [*args]: a datatype, a string or an integer. *)
Inductive pyarg :=
| ACls (c : pyclass)
| AStr (s : string)
| AInt (z : Z).

#[global] Instance pyarg_eq_dec : EqDecision pyarg.
Proof. solve_decision. Defined.

(** [str(a)] *)
Definition str (a : pyarg) : string :=
  match a with
  | ACls c => cls_repr c
  | AStr s => s
  | AInt z => pretty z
  end.

(** [a.__name__]: only a datatype has it. *)
Definition __name__ (a : pyarg) : res string :=
  match a with
  | ACls c => Ok (cls_name c)
  | _ => Raise (AttributeError "__name__")
  end.

Definition id_joiner : string := "/".

(** The attributes of an instance.  [childtype_dicts] is the object
    [mongo_doc['children']] itself. *)
Record ChildContainer := mkChildContainer {
  parent_id : string;
  parent_prefix : string;
  childtypes : list pyclass;
  childtype_dicts : pyval
}.

(** [assert c.__name__ in self.childtype_dicts.keys()], for each [c] *)
Fixpoint assert_tables (h : gmap loc (gmap string pyval)) (dicts : pyval)
    (cs : list pyclass) : res unit :=
  match cs with
  | [] => Ok tt
  | c :: cs' =>
      match dicts with
      | VRef l =>
          match h !! l with
          | Some d =>
              if bool_decide (cls_name c ∈ dom d) then assert_tables h dicts cs'
              else Raise AssertionError
          | None => Raise (AttributeError "keys")
          end
      | _ => Raise (AttributeError "keys")
      end
  end.

(** [__init__(parent_id, schema, mongo_doc)], where [contains] is
    [schema['contains']] *)
Definition __init__ (parent : string) (contains : list pyclass) (doc : pyval)
    (h : gmap loc (gmap string pyval)) : res ChildContainer :=
  let? dicts := subscript h doc "children" in
  let? _ := assert_tables h dicts contains in
  Ok (mkChildContainer parent (parent +:+ id_joiner) contains dicts).

(** ** Utils *)

Definition no_childtypes (c : ChildContainer) : bool :=
  Nat.eqb (length (childtypes c)) 0.

(** [datatype in self.childtypes] *)
Definition is_valid_childtype (c : ChildContainer) (datatype : pyarg) : bool :=
  match datatype with
  | ACls t => bool_decide (t ∈ childtypes c)
  | _ => false
  end.

Definition get_only_childtype (c : ChildContainer) : res pyclass :=
  match childtypes c with
  | [t] => Ok t
  | _ => Raise (Exception "You need to specify the child's datatype")
  end.

Definition is_full_id (c : ChildContainer) (_id : string) : bool :=
  startswith _id (parent_prefix c).

Definition is_raw_id (c : ChildContainer) (_id : string) : bool :=
  negb (is_full_id c _id).

Definition to_raw_id (c : ChildContainer) (a : pyarg) : string :=
  let _id := str a in
  if is_full_id c _id then slice_from (String.length (parent_prefix c)) _id
  else _id.

Definition to_full_id (c : ChildContainer) (a : pyarg) : string :=
  let _id := str a in
  if is_raw_id c _id then parent_prefix c +:+ _id
  else _id.

(** [self.childtype_dicts[datatype.__name__]] *)
Definition get_childtype_dict (c : ChildContainer) (datatype : pyarg)
    : M (gmap loc (gmap string pyval)) pyval :=
  λ h, (let? n := __name__ datatype in subscript h (childtype_dicts c) n, h).

(** ** Get / add *)

(** Returns [(childtype, raw_id)]. *)
Definition sanitize (c : ChildContainer) (args : list pyarg) : res (pyarg * string) :=
  if Nat.eqb (length (childtypes c)) 0 then
    Raise (Exception "No childtypes defined in Schema; operation illegal")
  else
    match args with
    | [a] =>
        if negb (Nat.eqb (length (childtypes c)) 1) then
          Raise (TypeError "Multiple childtypes exist; need to specify one")
        else
          let? t := get_only_childtype c in Ok (ACls t, to_raw_id c a)
    | [a0; a1] =>
        if negb (is_valid_childtype c a0) then
          let? n := __name__ a0 in
          Raise (TypeError ("Not a valid childtype: " +:+ n))
        else Ok (a0, to_raw_id c a1)
    | _ => Raise (Exception "Invalid number of arguments")
    end.

Definition get (c : ChildContainer) (args : list pyarg)
    : M (gmap loc (gmap string pyval)) (pyarg * pyval) :=
  let* r := lift_res (sanitize c args) in
  let childtype := r.1 in
  let raw_id := r.2 in
  let* childtype_dict := get_childtype_dict c childtype in
  let* full_id := (λ h, (subscript h childtype_dict raw_id, h)) in
  ret (childtype, full_id).

Definition add (c : ChildContainer) (args : list pyarg)
    : M (gmap loc (gmap string pyval)) unit :=
  let* r := lift_res (sanitize c args) in
  let childtype := r.1 in
  let raw_id := r.2 in
  let full_id := to_full_id c (AStr raw_id) in
  let* childtype_dict := get_childtype_dict c childtype in
  λ h, assign_subscript h childtype_dict raw_id (VStr full_id).

(** ** Calls from outside, and sequences of them *)

Inductive call :=
| Get (args : list pyarg)
| Add (args : list pyarg).

Definition run_call (c : ChildContainer) (x : call)
    : M (gmap loc (gmap string pyval)) (option (pyarg * pyval)) :=
  match x with
  | Get args => let* r := get c args in ret (Some r)
  | Add args => let* _ := add c args in ret None
  end.

Fixpoint run_calls (c : ChildContainer) (xs : list call) (h : gmap loc (gmap string pyval))
    : list (res (option (pyarg * pyval))) * gmap loc (gmap string pyval) :=
  match xs with
  | [] => ([], h)
  | x :: xs' =>
      let '(r, h') := run_call c x h in
      let '(rs, h'') := run_calls c xs' h' in
      (r :: rs, h'')
  end.

(** ** Notions the statements use *)

(** A container as [__init__] builds it: the prefix is the parent's id
    followed by the joiner. *)
Definition built (parent : string) (ts : list pyclass) (dicts : pyval) : ChildContainer :=
  mkChildContainer parent (parent +:+ id_joiner) ts dicts.

(** The errors [sanitize] raises. *)
Definition config_error : exn :=
  Exception "No childtypes defined in Schema; operation illegal".
Definition ambiguity_error : exn :=
  TypeError "Multiple childtypes exist; need to specify one".
Definition invalid_type_error (t : pyclass) : exn :=
  TypeError ("Not a valid childtype: " +:+ cls_name t).
Definition invalid_arguments_error : exn :=
  Exception "Invalid number of arguments".

(** Where the address table of datatype [t] is: the object
    [mongo_doc['children'][t.__name__]]. *)
Definition table_loc (c : ChildContainer) (h : gmap loc (gmap string pyval))
    (t : pyclass) : option loc :=
  match childtype_dicts c with
  | VRef lc =>
      match h !! lc with
      | Some dc => match dc !! cls_name t with
                   | Some (VRef lt) => Some lt
                   | _ => None
                   end
      | None => None
      end
  | _ => None
  end.

(** The address table of datatype [t]. *)
Definition table_of (c : ChildContainer) (h : gmap loc (gmap string pyval))
    (t : pyclass) : option (gmap string pyval) :=
  match table_loc c h t with
  | Some lt => h !! lt
  | None => None
  end.

(** Datatype [t] has a table, a dictionary other than the dictionary of
    the tables itself (a document is a tree). *)
Definition has_table (c : ChildContainer) (h : gmap loc (gmap string pyval))
    (t : pyclass) : bool :=
  match table_loc c h t with
  | Some lt => bool_decide (childtype_dicts c ≠ VRef lt) && bool_decide (is_Some (h !! lt))
  | None => false
  end.

(** Every declared datatype has its table. *)
Definition registry_ok (c : ChildContainer) (h : gmap loc (gmap string pyval)) : bool :=
  forallb (has_table c h) (childtypes c).

(** The table of [t] maps [raw] to its full id. *)
Definition entry (c : ChildContainer) (h : gmap loc (gmap string pyval))
    (t : pyclass) (raw : string) : Prop :=
  ∃ lt dt, table_loc c h t = Some lt ∧ h !! lt = Some dt
           ∧ dt !! raw = Some (VStr (to_full_id c (AStr raw))).

(** Object [o'] is object [o] except for entries from a raw id to its
    full id. *)
Definition only_addresses (c : ChildContainer) (o o' : gmap string pyval) : Prop :=
  ∀ k, o' !! k = o !! k ∨ o' !! k = Some (VStr (to_full_id c (AStr k))).

(** Heap [h'] is heap [h] except for such entries in objects among [locs]. *)
Definition only_tables (c : ChildContainer) (locs : loc → Prop)
    (h h' : gmap loc (gmap string pyval)) : Prop :=
  ∀ l, h' !! l = h !! l
       ∨ (locs l ∧ ∃ o o', h !! l = Some o ∧ h' !! l = Some o' ∧ only_addresses c o o').

(** The tables of the declared datatypes. *)
Definition declared_table (c : ChildContainer) (h : gmap loc (gmap string pyval))
    (l : loc) : Prop :=
  ∃ t, t ∈ childtypes c ∧ table_loc c h t = Some l.

End ChildContainer.

(* ===================================================================== *)
(** * A document, a schema and a file system to run the code on           *)
(* ===================================================================== *)

Module Fixture.

Import ModalDicts ChildContainer.

Definition Frame : pyclass := mkClass 1 "Frame" "<class 'Frame.Frame'>".
Definition Annotation : pyclass := mkClass 2 "Annotation" "<class 'Annotation.Annotation'>".

(** Reads the file as a string. *)
Definition read_text : load_fn :=
  λ p f, match f !! p with
         | Some (File c) => Ok (VStr c)
         | _ => Raise (OSError "cannot open")
         end.

(** Writes a string to the file. *)
Definition write_text : save_fn :=
  λ v p f, match v with
           | VStr c => (Ok tt, <[p := File c]> f)
           | _ => (Raise (TypeError "expected a string"), f)
           end.

Definition schema : gmap string schema_item :=
  {[ "name" := SchemaItem "memory" None None None;
     "thumbnail" := SchemaItem "disk" (Some "thumb.jpg") (Some read_text) (Some (Some write_text)) ]}.

(** The document of the object [video_1]:
    [{'root': '/data/video_1',
      'items': {'name': {'data': 'clip'}, 'thumbnail': {}},
      'children': {'Frame': {}}}] *)
Definition doc : pyval := VRef 1.

Definition heap0 : gmap loc (gmap string pyval) :=
  {[ 1%positive := {[ "root" := VStr "/data/video_1"; "items" := VRef 2; "children" := VRef 3 ]};
     2%positive := {[ "name" := VRef 4; "thumbnail" := VRef 5 ]};
     3%positive := {[ "Frame" := VRef 6 ]};
     4%positive := {[ "data" := VStr "clip" ]};
     5%positive := ∅;
     6%positive := ∅ ]}.

Definition thumb_path : string := "/data/video_1/thumb.jpg".

Definition fs_empty : gmap string fnode := ∅.
Definition fs_thumb : gmap string fnode := {[ thumb_path := File "JFIF" ]}.

(** The container of [video_1] over the document, as [__init__] leaves it. *)
Definition video_children : ChildContainer.ChildContainer :=
  mkChildContainer "video_1" "video_1/" [Frame] (VRef 3).

(** A container whose parent is named [a]. *)
Definition a_children : ChildContainer.ChildContainer :=
  mkChildContainer "a" "a/" [Frame] (VRef 3).

(** The stores of [video_1] over the document, as the constructors leave
    them (see [name_store_init] and [thumb_store_init]). *)
Definition name_store : ModalDict :=
  mkModalDict MemoryDict doc {[ "name" ]} {[ "name" := VRef 4 ]}
              {[ "name" := VStr "clip" ]} ∅ ∅ ∅.

Definition thumb_store : ModalDict :=
  mkModalDict DiskDict doc {[ "thumbnail" ]} {[ "thumbnail" := VRef 5 ]}
              {[ "thumbnail" := VNone ]} {[ "thumbnail" := read_text ]}
              {[ "thumbnail" := Some write_text ]} {[ "thumbnail" := thumb_path ]}.

(** The heap after [MemoryDict(doc, schema)], and after [DiskDict(doc,
    schema)] with the thumbnail on disk. *)
Definition heap_name : gmap loc (gmap string pyval) :=
  <[4%positive := {[ "data" := VStr "clip"; "present" := VBool true ]}]> heap0.

Definition heap_thumb : gmap loc (gmap string pyval) :=
  <[5%positive := {[ "present" := VBool true ]}]> heap0.

(** The store of the thumbnail with a save function that is [None], and
    with a value in the cache. *)
Definition thumb_store_ro : ModalDict :=
  mkModalDict DiskDict doc {[ "thumbnail" ]} {[ "thumbnail" := VRef 5 ]}
              {[ "thumbnail" := VNone ]} {[ "thumbnail" := read_text ]}
              {[ "thumbnail" := None ]} {[ "thumbnail" := thumb_path ]}.

Definition thumb_store_cached : ModalDict :=
  with_data {[ "thumbnail" := VStr "JFIF" ]} thumb_store.

(** A file system with a directory where the thumbnail should be. *)
Definition fs_dir : gmap string fnode := {[ thumb_path := Dir ]}.

(** Another datatype named [Frame], and a container that declares both. *)
Definition OtherFrame : pyclass := mkClass 3 "Frame" "<class 'Other.Frame'>".

Definition two_frames_children : ChildContainer.ChildContainer :=
  mkChildContainer "video_1" "video_1/" [Frame; OtherFrame] (VRef 3).

(** The document with the child [1] registered as a [Frame]. *)
Definition heap_child : gmap loc (gmap string pyval) :=
  <[6%positive := {[ "1" := VStr "video_1/1" ]}]> heap0.

(** The heap after [DiskDict(doc, schema)] with no thumbnail on disk. *)
Definition heap_absent : gmap loc (gmap string pyval) :=
  <[5%positive := {[ "present" := VBool false ]}]> heap0.

(** The store of the thumbnail, built with no thumbnail on disk, after a
    [delete('thumbnail')] that failed for want of the file. *)
Definition after_failed_delete : dstate :=
  (__delitem__ "thumbnail" (mkDState thumb_store heap_absent fs_empty)).2.

(** Then a second store over the same document saves a thumbnail. *)
Definition other_store_saved : dstate :=
  (__setitem__ "thumbnail" (VStr "PNG")
     (mkDState thumb_store (heap after_failed_delete) (fs after_failed_delete))).2.

(** The first store again, over the document and the files as the second
    store left them: the file of the thumbnail is back. *)
Definition file_is_back : dstate :=
  mkDState (self after_failed_delete) (heap other_store_saved) (fs other_store_saved).

End Fixture.

(* ===================================================================== *)
(** * Properties of the identifier normalizers                            *)
(* ===================================================================== *)

Section Strings.

Lemma app_cons (a : ascii) (s t : string) :
  String a s +:+ t = String a (s +:+ t).
Proof. reflexivity. Qed.

Lemma app_nil (t : string) : "" +:+ t = t.
Proof. reflexivity. Qed.

Lemma startswith_app (pre s : string) : startswith (pre +:+ s) pre = true.
Proof.
  induction pre as [|a pre IH]; [done|].
  rewrite app_cons. simpl. by rewrite Ascii.eqb_refl.
Qed.

Lemma slice_from_app (pre s : string) :
  slice_from (String.length pre) (pre +:+ s) = s.
Proof. induction pre as [|a pre IH]; [done|]. rewrite app_cons. simpl. auto. Qed.

Lemma startswith_split (s pre : string) :
  startswith s pre = true → s = pre +:+ slice_from (String.length pre) s.
Proof.
  revert s. induction pre as [|a pre IH]; intros s; simpl; [done|].
  destruct s as [|b s]; [done|].
  destruct (Ascii.eqb a b) eqn:E; [|done].
  apply Ascii.eqb_eq in E as ->. intros H. rewrite app_cons. f_equal. by apply IH.
Qed.

Lemma slice_from_length (n : nat) (s : string) :
  String.length (slice_from n s) = String.length s - n.
Proof.
  revert s. induction n as [|n IH]; intros s; simpl; [lia|].
  destruct s; simpl; auto.
Qed.

Lemma app_length (s t : string) :
  String.length (s +:+ t) = String.length s + String.length t.
Proof. induction s as [|a s IH]; [done|]. rewrite app_cons. simpl. auto. Qed.

Lemma startswith_app_app (p s q : string) :
  startswith (p +:+ s) (p +:+ q) = startswith s q.
Proof.
  induction p as [|a p IH]; [done|].
  rewrite !app_cons. simpl. by rewrite Ascii.eqb_refl.
Qed.

Lemma startswith_weaken (s p q : string) :
  startswith s (p +:+ q) = true → startswith s p = true.
Proof.
  revert s. induction p as [|a p IH]; intros s; [done|].
  rewrite app_cons. simpl. destruct s as [|b s]; [done|].
  destruct (Ascii.eqb a b); [apply IH | done].
Qed.

End Strings.

Module NormalizerProps.

Import ChildContainer.

Lemma init_built parent ts doc h c :
  __init__ parent ts doc h = Ok c →
  c = built parent ts (childtype_dicts c).
Proof.
  unfold __init__. destruct (subscript h doc "children"); [|done].
  destruct (assert_tables _ _ _); [|done]. by intros [= <-].
Qed.

Lemma to_full_id_is_full c s : is_full_id c (to_full_id c (AStr s)) = true.
Proof.
  unfold to_full_id, is_raw_id; simpl.
  destruct (is_full_id c s) eqn:E; simpl; [done|].
  apply startswith_app.
Qed.

Lemma to_full_id_idem c s :
  to_full_id c (AStr (to_full_id c (AStr s))) = to_full_id c (AStr s).
Proof.
  pose proof (to_full_id_is_full c s) as H.
  unfold to_full_id at 1. unfold is_raw_id. simpl. by rewrite H.
Qed.

Lemma prefix_nonempty parent ts dicts :
  0 < String.length (parent_prefix (built parent ts dicts)).
Proof. simpl. rewrite app_length. simpl. lia. Qed.

Lemma to_raw_id_on_raw c s :
  is_raw_id c s = true → to_raw_id c (AStr s) = s.
Proof.
  unfold is_raw_id, to_raw_id. simpl. by destruct (is_full_id c s).
Qed.

Lemma to_raw_id_on_full c s :
  is_full_id c s = true → s = parent_prefix c +:+ to_raw_id c (AStr s).
Proof.
  unfold to_raw_id, is_full_id. simpl. intros H. rewrite H.
  by apply startswith_split.
Qed.

(** C2, counterexample: with parent [a], stripping [a/a/b] gives [a/b],
    and stripping again gives [b]. *)
Lemma to_raw_id_not_idempotent :
  to_raw_id Fixture.a_children (AStr (to_raw_id Fixture.a_children (AStr "a/a/b")))
  ≠ to_raw_id Fixture.a_children (AStr "a/a/b").
Proof. vm_compute. discriminate. Qed.

(** C2, as amended: for every parent id and every string [s], both
    normalizers are defined, [to_full_id] is idempotent, and [to_raw_id]
    applied twice gives the same as applied once exactly when its first
    result does not start with the parent's prefix (it strips one prefix,
    not all of them). *)
Theorem normalizers_idempotence (parent : string) (ts : list pyclass) (dicts : pyval) (s : string) :
  let c := built parent ts dicts in
  to_full_id c (AStr (to_full_id c (AStr s))) = to_full_id c (AStr s)
  ∧ (to_raw_id c (AStr (to_raw_id c (AStr s))) = to_raw_id c (AStr s)
     ↔ is_raw_id c (to_raw_id c (AStr s)) = true).
Proof.
  intros c. split; [apply to_full_id_idem|].
  split.
  - intros Heq. unfold is_raw_id.
    destruct (is_full_id c (to_raw_id c (AStr s))) eqn:E; [|done].
    exfalso. apply to_raw_id_on_full in E.
    rewrite Heq in E. apply (f_equal String.length) in E.
    rewrite app_length in E.
    pose proof (prefix_nonempty parent ts dicts). fold c in H. lia.
  - apply to_raw_id_on_raw.
Qed.

End NormalizerProps.

(* ===================================================================== *)
(** * Resolution of child references                                      *)
(* ===================================================================== *)

Module SanitizeProps.

Import ChildContainer.

Lemma sanitize_no_childtypes c args :
  childtypes c = [] → sanitize c args = Raise config_error.
Proof. unfold sanitize. by intros ->. Qed.

Lemma sanitize_one_ambiguous c a :
  1 < length (childtypes c) → sanitize c [a] = Raise ambiguity_error.
Proof.
  unfold sanitize. destruct (childtypes c) as [|t [|t' ts]]; simpl; [lia|lia|done].
Qed.

Lemma sanitize_one_only c t a :
  childtypes c = [t] → sanitize c [a] = Ok (ACls t, to_raw_id c a).
Proof. unfold sanitize, get_only_childtype. by intros ->. Qed.

Lemma sanitize_two_invalid c t a :
  childtypes c ≠ [] → t ∉ childtypes c →
  sanitize c [ACls t; a] = Raise (invalid_type_error t).
Proof.
  unfold sanitize. intros Hne Hnot.
  destruct (childtypes c) as [|t0 ts] eqn:E; [done|]. simpl.
  rewrite E. by rewrite bool_decide_eq_false_2.
Qed.

Lemma sanitize_two_valid c t a :
  t ∈ childtypes c → sanitize c [ACls t; a] = Ok (ACls t, to_raw_id c a).
Proof.
  unfold sanitize. intros Hin.
  destruct (childtypes c) as [|t0 ts] eqn:E; [by apply elem_of_nil in Hin|]. simpl.
  rewrite E. by rewrite bool_decide_eq_true_2.
Qed.

Lemma sanitize_other_count c args :
  childtypes c ≠ [] → length args ≠ 1 → length args ≠ 2 →
  sanitize c args = Raise invalid_arguments_error.
Proof.
  unfold sanitize. intros Hne H1 H2.
  destruct (childtypes c) as [|t0 ts]; [done|]. simpl.
  by destruct args as [|a0 [|a1 [|a2 args]]].
Qed.

(** What a successful resolution returns: a declared datatype and an id
    obtained by [to_raw_id]. *)
Lemma sanitize_ok c args x raw :
  sanitize c args = Ok (x, raw) →
  ∃ t a, x = ACls t ∧ t ∈ childtypes c ∧ raw = to_raw_id c a
         ∧ (args = [a] ∨ args = [ACls t; a]).
Proof.
  unfold sanitize.
  destruct (childtypes c) as [|t0 ts] eqn:E; [done|]. simpl.
  destruct args as [|a0 [|a1 [|a2 args]]]; try done.
  - unfold get_only_childtype. rewrite E.
    destruct ts; simpl; [|done]. intros [= <- <-].
    exists t0, a0. repeat split; auto. apply list_elem_of_here.
  - destruct (is_valid_childtype c a0) eqn:V; simpl.
    + intros [= <- <-]. destruct a0 as [t| |]; simpl in V; try done.
      apply bool_decide_eq_true_1 in V. rewrite E in V.
      exists t, a1. repeat split; auto.
    + by destruct (__name__ a0).
Qed.

(** What [to_raw_id] returns: the string of the id, without its first
    parent prefix when it has one.  The result is in raw form unless the
    id starts with the prefix twice. *)
Lemma to_raw_id_strips_one c a :
  (startswith (str a) (parent_prefix c) = false → to_raw_id c a = str a)
  ∧ (startswith (str a) (parent_prefix c) = true →
     str a = parent_prefix c +:+ to_raw_id c a)
  ∧ (is_raw_id c (to_raw_id c a) = true
     ↔ startswith (str a) (parent_prefix c +:+ parent_prefix c) = false).
Proof.
  unfold to_raw_id, is_raw_id, is_full_id.
  destruct (startswith (str a) (parent_prefix c)) eqn:E.
  - split; [done|]. split; [intros _; by apply startswith_split|].
    rewrite (startswith_split _ _ E) at 2. rewrite startswith_app_app.
    by destruct (startswith (slice_from _ (str a)) (parent_prefix c)).
  - split; [done|]. split; [done|]. rewrite E. simpl. split; [|done].
    intros _. destruct (startswith (str a) (parent_prefix c +:+ parent_prefix c)) eqn:E2;
      [|done].
    apply startswith_weaken in E2. congruence.
Qed.

(** C5, counterexample: with parent [a], the id [a/a/b] resolves to
    [a/b], which is not in raw form; and in the form with two arguments a
    first argument that is a string raises an [AttributeError], not the
    error of an invalid datatype. *)
Lemma sanitize_not_raw_form :
  sanitize Fixture.a_children [AStr "a/a/b"] = Ok (ACls Fixture.Frame, "a/b")
  ∧ is_raw_id Fixture.a_children "a/b" = false
  ∧ sanitize Fixture.video_children [AStr "Frame"; AStr "1"]
    = Raise (AttributeError "__name__").
Proof. repeat split; vm_compute; reflexivity. Qed.

(** C5, as amended: resolution of a child reference, case by case.  With
    no declared datatype it fails with the configuration error, whatever
    the arguments; with one argument it fails with the ambiguity error
    when several datatypes are declared and resolves to the only one
    otherwise; with two arguments of which the first is a datatype it
    fails with the error of an invalid datatype when that datatype is not
    declared and resolves to it otherwise; with another number of
    arguments it fails with the error of invalid arguments.  A successful
    resolution returns a declared datatype and the string of the id
    without its first parent prefix, if it has one: the id as it is when
    it does not start with the prefix, and in raw form exactly when the
    id does not start with the prefix twice. *)
Theorem sanitize_by_case (c : ChildContainer) :
  (childtypes c = [] → ∀ args, sanitize c args = Raise config_error)
  ∧ (1 < length (childtypes c) → ∀ a, sanitize c [a] = Raise ambiguity_error)
  ∧ (∀ t, childtypes c = [t] → ∀ a, sanitize c [a] = Ok (ACls t, to_raw_id c a))
  ∧ (childtypes c ≠ [] → ∀ t a, t ∉ childtypes c →
       sanitize c [ACls t; a] = Raise (invalid_type_error t))
  ∧ (∀ t a, t ∈ childtypes c → sanitize c [ACls t; a] = Ok (ACls t, to_raw_id c a))
  ∧ (childtypes c ≠ [] → ∀ args, length args ≠ 1 → length args ≠ 2 →
       sanitize c args = Raise invalid_arguments_error)
  ∧ (∀ args x raw, sanitize c args = Ok (x, raw) →
       ∃ t a, x = ACls t ∧ t ∈ childtypes c ∧ raw = to_raw_id c a
              ∧ (args = [a] ∨ args = [ACls t; a])
              ∧ (startswith (str a) (parent_prefix c) = false → raw = str a)
              ∧ (startswith (str a) (parent_prefix c) = true →
                 str a = parent_prefix c +:+ raw)
              ∧ (is_raw_id c raw = true
                 ↔ startswith (str a) (parent_prefix c +:+ parent_prefix c) = false)).
Proof.
  repeat split.
  - intros H args. by apply sanitize_no_childtypes.
  - intros H a. by apply sanitize_one_ambiguous.
  - intros t H a. by apply sanitize_one_only.
  - intros H t a Ht. by apply sanitize_two_invalid.
  - intros t a Ht. by apply sanitize_two_valid.
  - intros H args H1 H2. by apply sanitize_other_count.
  - intros args x raw H.
    destruct (sanitize_ok c args x raw H) as (t & a & Hx & Hin & Hraw & Hargs).
    exists t, a. rewrite Hraw. repeat split; auto; apply to_raw_id_strips_one.
Qed.

Lemma sanitize_by_case_witness :
  sanitize Fixture.video_children [AStr "video_1/7"] = Ok (ACls Fixture.Frame, "7")
  ∧ sanitize Fixture.video_children [ACls Fixture.Annotation; AStr "7"]
    = Raise (invalid_type_error Fixture.Annotation)
  ∧ sanitize Fixture.video_children [] = Raise invalid_arguments_error
  ∧ is_raw_id Fixture.video_children "7" = true.
Proof.
  destruct (sanitize_by_case Fixture.video_children)
    as (_ & _ & H3 & H4 & _ & H6 & H7).
  split; [exact (H3 Fixture.Frame eq_refl (AStr "video_1/7"))|].
  split.
  { apply H4; [discriminate|].
    intros [=]%list_elem_of_singleton. }
  split.
  { apply H6; simpl; [discriminate | lia | lia]. }
  destruct (H7 [AStr "video_1/7"] (ACls Fixture.Frame) "7" eq_refl)
    as (t & a & _ & _ & _ & [[= <-]|[=]] & _ & _ & Hraw).
  apply Hraw. reflexivity.
Defined.

End SanitizeProps.

(* ===================================================================== *)
(** * The registry: get and add on the tables of the document             *)
(* ===================================================================== *)

Module RegistryProps.

Import ChildContainer.

Ltac unfold_reg :=
  unfold get, add, run_call, get_childtype_dict, bind, ret, lift_res,
         subscript, assign_subscript; simpl.

Lemma table_loc_inv c h t lt :
  table_loc c h t = Some lt →
  ∃ lc dc, childtype_dicts c = VRef lc ∧ h !! lc = Some dc
           ∧ dc !! cls_name t = Some (VRef lt).
Proof.
  unfold table_loc. destruct (childtype_dicts c) as [| | | |lc]; try done.
  destruct (h !! lc) as [dc|] eqn:Hc; [|done].
  destruct (dc !! cls_name t) as [[| | | |l]|] eqn:Ht; try done.
  intros [= <-]. eauto.
Qed.

Lemma has_table_inv c h t :
  has_table c h t = true →
  ∃ lt dt, table_loc c h t = Some lt ∧ h !! lt = Some dt
           ∧ childtype_dicts c ≠ VRef lt.
Proof.
  unfold has_table. destruct (table_loc c h t) as [lt|]; [|done].
  intros [H1 [dt H2]%bool_decide_eq_true_1]%andb_prop.
  apply bool_decide_eq_true_1 in H1. eauto.
Qed.

Lemma registry_ok_has_table c h t :
  registry_ok c h = true → t ∈ childtypes c → has_table c h t = true.
Proof.
  unfold registry_ok. rewrite forallb_forall. intros H Hin.
  apply H. by apply list_elem_of_In.
Qed.

(** [get] reads the heap and leaves it as it is. *)
Lemma get_heap c args h : (get c args h).2 = h.
Proof.
  unfold_reg. destruct (sanitize c args) as [[x raw]|e]; simpl; [|done].
  destruct (__name__ x) as [n|]; simpl; [|done].
  destruct (childtype_dicts c) as [| | | |lc]; simpl; try done.
  destruct (h !! lc) as [dc|]; simpl; [|done].
  destruct (dc !! n) as [v|]; simpl; [|done].
  destruct v as [| | | |lt]; simpl; try done.
  destruct (h !! lt) as [dt|]; simpl; [|done].
  by destruct (dt !! raw).
Qed.

(** [get] on a resolved reference is the lookup in the table. *)
Lemma get_resolved c h args t raw lt dt :
  sanitize c args = Ok (ACls t, raw) →
  table_loc c h t = Some lt → h !! lt = Some dt →
  get c args h = (match dt !! raw with
                  | Some v => Ok (ACls t, v)
                  | None => Raise (KeyError raw)
                  end, h).
Proof.
  intros Hs Hl Ht. apply table_loc_inv in Hl as (lc & dc & Hc & Hlc & Hn).
  unfold_reg. rewrite Hs. simpl. rewrite Hc, Hlc, Hn, Ht.
  by destruct (dt !! raw).
Qed.

(** [add] on a resolved reference is the insertion into the table. *)
Lemma add_resolved c h args t raw lt dt :
  sanitize c args = Ok (ACls t, raw) →
  table_loc c h t = Some lt → h !! lt = Some dt →
  add c args h = (Ok tt, <[lt := <[raw := VStr (to_full_id c (AStr raw))]> dt]> h).
Proof.
  intros Hs Hl Ht. apply table_loc_inv in Hl as (lc & dc & Hc & Hlc & Hn).
  unfold_reg. rewrite Hs. simpl. by rewrite Hc, Hlc, Hn, Ht.
Qed.

(** Whatever the heap, [add] writes at most one entry, from a raw id to
    its full id. *)
Lemma add_effect c args h :
  (add c args h).2 = h
  ∨ ∃ lt dt raw, h !! lt = Some dt
      ∧ (add c args h).2 = <[lt := <[raw := VStr (to_full_id c (AStr raw))]> dt]> h.
Proof.
  unfold_reg. destruct (sanitize c args) as [[x raw]|e]; simpl; [|by left].
  destruct (__name__ x) as [n|]; simpl; [|by left].
  destruct (childtype_dicts c) as [| | | |lc]; simpl; try by left.
  destruct (h !! lc) as [dc|]; simpl; [|by left].
  destruct (dc !! n) as [v|]; simpl; [|by left].
  destruct v as [| | | |lt]; simpl; try by left.
  destruct (h !! lt) as [dt|] eqn:Ht; simpl; [|by left].
  right. eauto.
Qed.

(** [add] on a document with its tables writes into the table of the
    resolved datatype, or fails in [sanitize] and writes nothing. *)
Lemma add_effect_ok c args h :
  registry_ok c h = true →
  (add c args h).2 = h
  ∨ ∃ t lt dt raw, t ∈ childtypes c ∧ table_loc c h t = Some lt ∧ h !! lt = Some dt
      ∧ childtype_dicts c ≠ VRef lt
      ∧ (add c args h).2 = <[lt := <[raw := VStr (to_full_id c (AStr raw))]> dt]> h.
Proof.
  intros Hok. destruct (sanitize c args) as [[x raw]|e] eqn:Hs.
  - apply SanitizeProps.sanitize_ok in Hs as Hx.
    destruct Hx as (t & a & -> & Hin & _ & _).
    destruct (has_table_inv c h t) as (lt & dt & Hl & Ht & Hne);
      [by apply registry_ok_has_table|].
    right. exists t, lt, dt, raw. repeat split; auto.
    by rewrite (add_resolved c h args t raw lt dt).
  - left. unfold_reg. by rewrite Hs.
Qed.

(** A write into a table leaves every table where it was. *)
Lemma table_loc_insert c h lt d t :
  childtype_dicts c ≠ VRef lt →
  table_loc c (<[lt := d]> h) t = table_loc c h t.
Proof.
  intros Hne. unfold table_loc.
  destruct (childtype_dicts c) as [| | | |lc]; try done.
  rewrite lookup_insert_ne; [done|]. congruence.
Qed.

Lemma has_table_insert c h lt d t :
  childtype_dicts c ≠ VRef lt → is_Some (h !! lt) →
  has_table c (<[lt := d]> h) t = has_table c h t.
Proof.
  intros Hne Hsome. unfold has_table. rewrite table_loc_insert; [|done].
  destruct (table_loc c h t) as [l|]; [|done]. f_equal.
  apply bool_decide_ext. destruct (decide (lt = l)) as [->|Hl].
  - rewrite lookup_insert_eq. split; eauto.
  - by rewrite lookup_insert_ne.
Qed.

Lemma registry_ok_insert c h lt d :
  childtype_dicts c ≠ VRef lt → is_Some (h !! lt) →
  registry_ok c (<[lt := d]> h) = registry_ok c h.
Proof.
  intros Hne Hsome. unfold registry_ok.
  induction (childtypes c) as [|t ts IH]; simpl; [done|].
  by rewrite has_table_insert, IH.
Qed.

Lemma run_call_heap_get c args h : (run_call c (Get args) h).2 = h.
Proof.
  unfold run_call, bind, ret. pose proof (get_heap c args h) as H.
  by destruct (get c args h) as [[r|e] h'].
Qed.

Lemma run_call_heap_add c args h : (run_call c (Add args) h).2 = (add c args h).2.
Proof.
  unfold run_call, bind, ret. by destruct (add c args h) as [[r|e] h'].
Qed.

Lemma registry_calls_cons c x xs h :
  (run_calls c (x :: xs) h).2 = (run_calls c xs (run_call c x h).2).2.
Proof.
  simpl. destruct (run_call c x h) as [r h']. simpl.
  by destruct (run_calls c xs h') as [rs h''].
Qed.

Lemma run_call_registry_ok c x h :
  registry_ok c h = true → registry_ok c (run_call c x h).2 = true.
Proof.
  intros Hok. destruct x as [args|args].
  - by rewrite run_call_heap_get.
  - rewrite run_call_heap_add.
    destruct (add_effect_ok c args h Hok) as [->|(t & lt & dt & raw & _ & _ & Ht & Hne & ->)];
      [done|].
    rewrite registry_ok_insert; eauto.
Qed.

Lemma run_calls_registry_ok c xs h :
  registry_ok c h = true → registry_ok c (run_calls c xs h).2 = true.
Proof.
  revert h. induction xs as [|x xs IH]; intros h Hok; [done|].
  rewrite registry_calls_cons. by apply IH, run_call_registry_ok.
Qed.

(** ** Entries stay *)

Lemma entry_run_call c x h t raw :
  registry_ok c h = true → entry c h t raw → entry c (run_call c x h).2 t raw.
Proof.
  intros Hok (lt & dt & Hl & Ht & Hr). destruct x as [args|args].
  - rewrite run_call_heap_get. exists lt, dt. auto.
  - rewrite run_call_heap_add.
    destruct (add_effect_ok c args h Hok)
      as [->|(t' & lt' & dt' & raw' & _ & _ & Ht' & Hne & ->)];
      [exists lt, dt; auto|].
    rewrite <- (table_loc_insert c h lt' (<[raw' := VStr (to_full_id c (AStr raw'))]> dt') t Hne) in Hl.
    destruct (decide (lt' = lt)) as [->|Hlt].
    + eexists lt, _. split; [done|]. rewrite lookup_insert_eq. split; [done|].
      assert (dt' = dt) as -> by congruence.
      destruct (decide (raw' = raw)) as [->|Hraw].
      * by rewrite lookup_insert_eq.
      * by rewrite lookup_insert_ne.
    + exists lt, dt. split; [done|]. by rewrite lookup_insert_ne.
Qed.

Lemma entry_run_calls c xs h t raw :
  registry_ok c h = true → entry c h t raw → entry c (run_calls c xs h).2 t raw.
Proof.
  revert h. induction xs as [|x xs IH]; intros h Hok He; [done|].
  rewrite registry_calls_cons. apply IH; [by apply run_call_registry_ok|].
  by apply entry_run_call.
Qed.

Lemma entry_after_add c h args t raw :
  registry_ok c h = true → sanitize c args = Ok (ACls t, raw) →
  entry c (add c args h).2 t raw.
Proof.
  intros Hok Hs. apply SanitizeProps.sanitize_ok in Hs as Hx.
  destruct Hx as (t' & a & [= <-] & Hin & _ & _).
  destruct (has_table_inv c h t) as (lt & dt & Hl & Ht & Hne);
    [by apply registry_ok_has_table|].
  rewrite (add_resolved c h args t raw lt dt); auto. simpl.
  exists lt, (<[raw := VStr (to_full_id c (AStr raw))]> dt).
  rewrite table_loc_insert; [|done].
  by rewrite !lookup_insert_eq.
Qed.

Lemma entry_get c h args t raw :
  sanitize c args = Ok (ACls t, raw) → entry c h t raw →
  get c args h = (Ok (ACls t, VStr (to_full_id c (AStr raw))), h).
Proof.
  intros Hs (lt & dt & Hl & Ht & Hr).
  rewrite (get_resolved c h args t raw lt dt); auto. by rewrite Hr.
Qed.

Lemma added_then_known c xs h args t raw :
  registry_ok c h = true → Add args ∈ xs → sanitize c args = Ok (ACls t, raw) →
  entry c (run_calls c xs h).2 t raw.
Proof.
  revert h. induction xs as [|x xs IH]; intros h Hok Hin Hs.
  - by apply elem_of_nil in Hin.
  - rewrite registry_calls_cons. apply elem_of_cons in Hin as [<-|Hin].
    + apply entry_run_calls; [by apply run_call_registry_ok|].
      rewrite run_call_heap_add. by apply entry_after_add.
    + apply IH; auto. by apply run_call_registry_ok.
Qed.

End RegistryProps.

Module RegistryClaims.

Import ChildContainer RegistryProps.

(** C8, counterexample: with parent [a], adding the id [a/a/b] to the
    table of [Frame] and getting it back gives the full id [a/b], not
    [a/] followed by the raw id [a/b]. *)
Lemma add_then_get_strips_once :
  (get Fixture.a_children [ACls Fixture.Frame; AStr "a/a/b"]
     (add Fixture.a_children [ACls Fixture.Frame; AStr "a/a/b"] Fixture.heap0).2).1
  = Ok (ACls Fixture.Frame, VStr "a/b")
  ∧ (get Fixture.a_children [ACls Fixture.Frame; AStr "a/a/b"]
       (add Fixture.a_children [ACls Fixture.Frame; AStr "a/a/b"] Fixture.heap0).2).1
    ≠ Ok (ACls Fixture.Frame,
          VStr (("a" +:+ "/") +:+ to_raw_id Fixture.a_children (AStr "a/a/b"))).
Proof. split; vm_compute; [reflexivity | discriminate]. Qed.

(** C8, as amended: on a document that has a table for every declared
    datatype, [add(T, i)] followed by [get(T, i)] returns [T] with
    [to_full_id(to_raw_id(i))]; that is the parent's id, the joiner and the
    raw id whenever the raw id does not itself start with the parent's
    prefix.  When [T] is the only declared datatype the forms with one
    argument do the same. *)
Theorem add_then_get (parent : string) (ts : list pyclass) (dicts : pyval)
    (h : gmap loc (gmap string pyval)) (t : pyclass) (i : pyarg) :
  let c := built parent ts dicts in
  let raw := to_raw_id c i in
  let h' := (add c [ACls t; i] h).2 in
  registry_ok c h = true → t ∈ ts →
  add c [ACls t; i] h = (Ok tt, h')
  ∧ get c [ACls t; i] h' = (Ok (ACls t, VStr (to_full_id c (AStr raw))), h')
  ∧ (is_raw_id c raw = true → to_full_id c (AStr raw) = (parent +:+ "/") +:+ raw)
  ∧ (ts = [t] →
       add c [i] h = (Ok tt, h')
       ∧ get c [i] h' = (Ok (ACls t, VStr (to_full_id c (AStr raw))), h')).
Proof.
  intros c raw h' Hok Hin.
  assert (Hs2 : sanitize c [ACls t; i] = Ok (ACls t, raw))
    by (by apply SanitizeProps.sanitize_two_valid).
  destruct (has_table_inv c h t) as (lt & dt & Hl & Ht & Hne);
    [by apply registry_ok_has_table|].
  pose proof (add_resolved c h _ t raw lt dt Hs2 Hl Ht) as Hadd.
  assert (He : entry c h' t raw) by (by apply entry_after_add).
  split; [subst h'; by rewrite Hadd|].
  split; [by apply entry_get|].
  split.
  - intros Hraw. unfold to_full_id. simpl. by rewrite Hraw.
  - intros Hts.
    assert (Hs1 : sanitize c [i] = Ok (ACls t, raw))
      by (by apply SanitizeProps.sanitize_one_only).
    split; [|by apply entry_get].
    subst h'. rewrite Hadd. simpl.
    by apply (add_resolved c h [i] t raw lt dt).
Qed.

Lemma add_then_get_witness :
  add Fixture.video_children [ACls Fixture.Frame; AStr "1"] Fixture.heap0
  = (Ok tt, (add Fixture.video_children [ACls Fixture.Frame; AStr "1"] Fixture.heap0).2)
  ∧ get Fixture.video_children [AStr "1"]
      (add Fixture.video_children [ACls Fixture.Frame; AStr "1"] Fixture.heap0).2
    = (Ok (ACls Fixture.Frame, VStr "video_1/1"),
       (add Fixture.video_children [ACls Fixture.Frame; AStr "1"] Fixture.heap0).2).
Proof.
  pose proof (add_then_get "video_1" [Fixture.Frame] (VRef 3) Fixture.heap0
                Fixture.Frame (AStr "1")) as H.
  simpl in H.
  destruct H as (H1 & _ & _ & H4); [reflexivity | apply list_elem_of_here |].
  split; [exact H1|]. exact (proj2 (H4 eq_refl)).
Defined.

(** C9: on a document that has a table for every declared datatype, [get]
    on a resolved reference raises the lookup error exactly when the raw
    id is not in the table of the resolved datatype, and returns the entry
    otherwise; and after any calls among which the id was added, [get]
    returns its full id. *)
Theorem get_lookup_error (c : ChildContainer) (h : gmap loc (gmap string pyval)) :
  registry_ok c h = true →
  (∀ args t raw, sanitize c args = Ok (ACls t, raw) →
     ∃ dt, table_of c h t = Some dt
           ∧ (dt !! raw = None → get c args h = (Raise (KeyError raw), h))
           ∧ (∀ v, dt !! raw = Some v → get c args h = (Ok (ACls t, v), h)))
  ∧ (∀ xs args args' t raw,
       Add args ∈ xs → sanitize c args = Ok (ACls t, raw) →
       sanitize c args' = Ok (ACls t, raw) →
       get c args' (run_calls c xs h).2
       = (Ok (ACls t, VStr (to_full_id c (AStr raw))), (run_calls c xs h).2)).
Proof.
  intros Hok. split.
  - intros args t raw Hs. apply SanitizeProps.sanitize_ok in Hs as Hx.
    destruct Hx as (t' & a & [= <-] & Hin & _ & _).
    destruct (has_table_inv c h t) as (lt & dt & Hl & Ht & Hne);
      [by apply registry_ok_has_table|].
    exists dt. unfold table_of. rewrite Hl. split; [done|].
    rewrite (get_resolved c h args t raw lt dt); auto.
    split; [by intros ->|]. by intros v ->.
  - intros xs args args' t raw Hin Hs Hs'. apply entry_get; [done|].
    by apply added_then_known with args.
Qed.

Lemma get_lookup_error_witness :
  get Fixture.video_children [ACls Fixture.Frame; AStr "9"] Fixture.heap0
  = (Raise (KeyError "9"), Fixture.heap0)
  ∧ get Fixture.video_children [AStr "video_1/9"]
      (run_calls Fixture.video_children
         [Add [ACls Fixture.Frame; AStr "9"]; Add [AInt 4]] Fixture.heap0).2
    = (Ok (ACls Fixture.Frame, VStr "video_1/9"),
       (run_calls Fixture.video_children
          [Add [ACls Fixture.Frame; AStr "9"]; Add [AInt 4]] Fixture.heap0).2).
Proof.
  destruct (get_lookup_error Fixture.video_children Fixture.heap0) as [HA HB];
    [reflexivity|].
  split.
  - destruct (HA [ACls Fixture.Frame; AStr "9"] Fixture.Frame "9") as (dt & Hdt & Hnone & _);
      [reflexivity|].
    apply Hnone. vm_compute in Hdt. injection Hdt as <-. reflexivity.
  - apply (HB [Add [ACls Fixture.Frame; AStr "9"]; Add [AInt 4]]
              [ACls Fixture.Frame; AStr "9"] [AStr "video_1/9"] Fixture.Frame "9").
    + apply list_elem_of_here.
    + reflexivity.
    + reflexivity.
Defined.

End RegistryClaims.

(* ===================================================================== *)
(** * What the registry writes into the document                          *)
(* ===================================================================== *)

Module RegistryFrame.

Import ChildContainer RegistryProps.

Lemma only_addresses_refl c o : only_addresses c o o.
Proof. intros k. by left. Qed.

Lemma only_addresses_trans c o1 o2 o3 :
  only_addresses c o1 o2 → only_addresses c o2 o3 → only_addresses c o1 o3.
Proof.
  intros H12 H23 k. destruct (H23 k) as [-> | ->]; [apply H12 | by right].
Qed.

Lemma only_addresses_insert c o raw :
  only_addresses c o (<[raw := VStr (to_full_id c (AStr raw))]> o).
Proof.
  intros k. destruct (decide (raw = k)) as [->|Hne].
  - right. by rewrite lookup_insert_eq.
  - left. by rewrite lookup_insert_ne.
Qed.

Lemma only_tables_refl c locs h : only_tables c locs h h.
Proof. intros l. by left. Qed.

Lemma only_tables_trans c locs h1 h2 h3 :
  only_tables c locs h1 h2 → only_tables c locs h2 h3 → only_tables c locs h1 h3.
Proof.
  intros H12 H23 l.
  destruct (H23 l) as [E23|(Hl & o2 & o3 & E2 & E3 & A23)].
  - rewrite E23. apply H12.
  - destruct (H12 l) as [E12|(_ & o1 & o2' & E1 & E2' & A12)].
    + right. split; [done|]. exists o2, o3. rewrite <- E12. auto.
    + right. split; [done|]. exists o1, o3. repeat split; auto.
      assert (o2' = o2) as -> by congruence.
      by apply only_addresses_trans with o2.
Qed.

Lemma only_tables_weaken c (locs locs' : loc → Prop) h h' :
  (∀ l, locs l → locs' l) → only_tables c locs h h' → only_tables c locs' h h'.
Proof.
  intros Hsub H l. destruct (H l) as [E|(Hl & Hrest)]; [by left|].
  right. split; auto.
Qed.

Lemma only_tables_insert c (locs : loc → Prop) h lt dt raw :
  locs lt → h !! lt = Some dt →
  only_tables c locs h (<[lt := <[raw := VStr (to_full_id c (AStr raw))]> dt]> h).
Proof.
  intros Hl Ht l. destruct (decide (lt = l)) as [<-|Hne].
  - right. split; [done|]. eexists dt, _. rewrite lookup_insert_eq.
    repeat split; auto. apply only_addresses_insert.
  - left. by rewrite lookup_insert_ne.
Qed.

(** One call, on any heap. *)
Lemma run_call_only_tables c x h :
  only_tables c (λ _, True) h (run_call c x h).2.
Proof.
  destruct x as [args|args].
  - rewrite run_call_heap_get. apply only_tables_refl.
  - rewrite run_call_heap_add.
    destruct (add_effect c args h) as [->|(lt & dt & raw & Ht & ->)].
    + apply only_tables_refl.
    + by apply only_tables_insert.
Qed.

Lemma run_calls_only_tables c xs h :
  only_tables c (λ _, True) h (run_calls c xs h).2.
Proof.
  revert h. induction xs as [|x xs IH]; intros h.
  - apply only_tables_refl.
  - rewrite registry_calls_cons.
    eapply only_tables_trans; [apply run_call_only_tables | apply IH].
Qed.

(** One call, on a document with its tables. *)
Lemma run_call_table_loc c x h t :
  registry_ok c h = true → table_loc c (run_call c x h).2 t = table_loc c h t.
Proof.
  intros Hok. destruct x as [args|args].
  - by rewrite run_call_heap_get.
  - rewrite run_call_heap_add.
    destruct (add_effect_ok c args h Hok)
      as [->|(t' & lt & dt & raw & _ & _ & _ & Hne & ->)]; [done|].
    by apply table_loc_insert.
Qed.

Lemma run_call_only_declared c x h :
  registry_ok c h = true →
  only_tables c (declared_table c h) h (run_call c x h).2.
Proof.
  intros Hok. destruct x as [args|args].
  - rewrite run_call_heap_get. apply only_tables_refl.
  - rewrite run_call_heap_add.
    destruct (add_effect_ok c args h Hok)
      as [->|(t & lt & dt & raw & Hin & Hl & Ht & _ & ->)].
    + apply only_tables_refl.
    + apply only_tables_insert; [|done]. by exists t.
Qed.

Lemma run_calls_only_declared c xs h :
  registry_ok c h = true →
  only_tables c (declared_table c h) h (run_calls c xs h).2.
Proof.
  revert h. induction xs as [|x xs IH]; intros h Hok.
  - apply only_tables_refl.
  - rewrite registry_calls_cons.
    eapply only_tables_trans; [by apply run_call_only_declared|].
    eapply only_tables_weaken; [|by apply IH, run_call_registry_ok].
    intros l (t & Hin & Hl). exists t. split; [done|].
    by rewrite <- (run_call_table_loc c x h t Hok).
Qed.

End RegistryFrame.

(* ===================================================================== *)
(** * The item stores, one call at a time                                 *)
(* ===================================================================== *)

Module StoreProps.

Import ModalDicts.

Lemma key_ok_inv d h k :
  key_ok d h k = true →
  __contains__ d k = true
  ∧ (∃ l o, metadata d !! k = Some (VRef l) ∧ h !! l = Some o)
  ∧ (∃ v, data d !! k = Some v)
  ∧ (cls d = DiskDict →
     (∃ p, paths d !! k = Some p) ∧ (∃ lf, load_funcs d !! k = Some lf)
     ∧ (∃ sf, save_funcs d !! k = Some sf)).
Proof.
  unfold key_ok, meta_ok.
  intros [[[Hc Hm]%andb_prop Hd%bool_decide_eq_true_1]%andb_prop Hdisk]%andb_prop.
  split; [done|]. split.
  { destruct (metadata d !! k) as [[| | | |l]|]; try done.
    apply bool_decide_eq_true_1 in Hm as [o Ho]. eauto. }
  split; [done|].
  intros Hcls. rewrite Hcls in Hdisk.
  apply andb_prop in Hdisk as [[Hp%bool_decide_eq_true_1 Hl%bool_decide_eq_true_1]%andb_prop
                                 Hs%bool_decide_eq_true_1].
  done.
Qed.

(** The effect of a successful write of the flag. *)
Lemma set_present_ok k v d h f l o :
  metadata d !! k = Some (VRef l) → h !! l = Some o →
  set_present k v (mkDState d h f)
  = (Ok tt, mkDState d (<[l := <["present" := v]> o]> h) f).
Proof.
  intros Hm Hl. unfold set_present, assign_subscript. simpl. by rewrite Hm, Hl.
Qed.

Lemma detect_keyerror_ok k s :
  __contains__ (self s) k = true → detect_keyerror k s = (Ok tt, s).
Proof. unfold detect_keyerror. by intros ->. Qed.

(** ** MemoryDict *)

Lemma memory_getitem d h f k v :
  cls d = MemoryDict → __contains__ d k = true → data d !! k = Some v →
  __getitem__ k (mkDState d h f) = (Ok v, mkDState d h f).
Proof.
  intros Hcls Hc Hd.
  unfold __getitem__, bind. rewrite detect_keyerror_ok; [|done].
  unfold get_item. simpl. rewrite Hcls.
  unfold MemoryDict_get_item, bind. rewrite detect_keyerror_ok; [|done].
  unfold data_get. simpl. by rewrite Hd.
Qed.

Lemma memory_item_present d h f k v :
  cls d = MemoryDict → __contains__ d k = true → data d !! k = Some v →
  item_present k (mkDState d h f) = (Ok (negb (is_none v)), mkDState d h f).
Proof.
  intros Hcls Hc Hd. unfold item_present, MemoryDict_item_present, bind, ret.
  simpl. rewrite Hcls. by rewrite (memory_getitem d h f k v).
Qed.

Lemma memory_setitem d h f k v l o :
  cls d = MemoryDict → __contains__ d k = true →
  metadata d !! k = Some (VRef l) → h !! l = Some o →
  __setitem__ k v (mkDState d h f)
  = (Ok tt, mkDState (with_data (<[k := v]> (data d)) d)
                     (<[l := <["present" := VBool true]> o]> h) f).
Proof.
  intros Hcls Hc Hm Hl. unfold __setitem__, bind.
  rewrite detect_keyerror_ok; [|done].
  rewrite (set_present_ok k _ d h f l o); auto.
  unfold set_item. simpl. by rewrite Hcls.
Qed.

Lemma memory_delitem d h f k l o :
  cls d = MemoryDict → __contains__ d k = true →
  metadata d !! k = Some (VRef l) → h !! l = Some o →
  __delitem__ k (mkDState d h f)
  = (Ok tt, mkDState (with_data (<[k := VNone]> (data d)) d)
                     (<[l := <["present" := VBool false]> o]> h) f).
Proof.
  intros Hcls Hc Hm Hl. unfold __delitem__, bind.
  rewrite detect_keyerror_ok; [|done].
  rewrite (set_present_ok k _ d h f l o); auto.
  unfold del_item. simpl. by rewrite Hcls.
Qed.

(** ** DiskDict *)

Lemma disk_item_present d h f k p :
  cls d = DiskDict → paths d !! k = Some p →
  item_present k (mkDState d h f) = (Ok (os_path_exists f p), mkDState d h f).
Proof.
  intros Hcls Hp. unfold item_present, DiskDict_item_present, bind, path_get, gets.
  simpl. by rewrite Hcls, Hp.
Qed.

(** The read hook behind [__getitem__], by cases on the cache, the file
    and the load function. *)
Lemma disk_getitem d h f k p lf v :
  cls d = DiskDict → __contains__ d k = true →
  paths d !! k = Some p → load_funcs d !! k = Some lf → data d !! k = Some v →
  __getitem__ k (mkDState d h f)
  = if is_none v && os_path_exists f p then
      match lf p f with
      | Ok v' => (Ok v', mkDState (with_data (<[k := v']> (data d)) d) h f)
      | Raise e => (Raise e, mkDState d h f)
      end
    else (Ok v, mkDState d h f).
Proof.
  intros Hcls Hc Hp Hlf Hd.
  unfold __getitem__, bind. rewrite detect_keyerror_ok; [|done].
  unfold get_item. simpl. rewrite Hcls.
  unfold DiskDict_get_item, bind, data_get. simpl. rewrite Hd.
  destruct (is_none v) eqn:Hv; simpl.
  - unfold DiskDict_item_present, bind, path_get, gets. simpl. rewrite Hp. simpl.
    destruct (os_path_exists f p) eqn:He; simpl.
    + unfold DiskDict_load_item, __contains__. simpl.
      unfold __contains__ in Hc. rewrite Hc, Hlf, Hp. simpl.
      destruct (lf p f) as [v'|e]; [|done].
      unfold data_set, modify, with_self. simpl.
      by rewrite lookup_insert_eq.
    + unfold ret. by rewrite Hd.
  - unfold ret. by rewrite Hd.
Qed.

Lemma disk_delitem d h f k p l o v :
  cls d = DiskDict → __contains__ d k = true →
  metadata d !! k = Some (VRef l) → h !! l = Some o →
  paths d !! k = Some p → data d !! k = Some v →
  __delitem__ k (mkDState d h f)
  = let h' := <[l := <["present" := VBool false]> o]> h in
    match os_remove f p with
    | (Ok _, f') => (Ok tt, mkDState (with_data (<[k := VNone]> (delete k (data d))) d) h' f')
    | (Raise e, f') => (Raise e, mkDState (with_data (delete k (data d)) d) h' f')
    end.
Proof.
  intros Hcls Hc Hm Hl Hp Hd. unfold __delitem__, bind.
  rewrite detect_keyerror_ok; [|done].
  rewrite (set_present_ok k _ d h f l o); auto.
  unfold del_item. simpl. rewrite Hcls.
  unfold DiskDict_del_item, bind, data_del, path_get. simpl. rewrite Hd. simpl. rewrite Hp.
  simpl. destruct (os_remove f p) as [[u|e] f']; simpl; [|done].
  by unfold data_set, modify, with_self.
Qed.

(** After a removal that failed, the cache has no entry: the lookup in
    [get_item] raises. *)
Lemma disk_getitem_no_entry d h f k :
  cls d = DiskDict → __contains__ d k = true → data d !! k = None →
  __getitem__ k (mkDState d h f) = (Raise (KeyError k), mkDState d h f).
Proof.
  intros Hcls Hc Hd. unfold __getitem__, bind. rewrite detect_keyerror_ok; [|done].
  unfold get_item. simpl. rewrite Hcls.
  unfold DiskDict_get_item, bind, data_get. simpl. by rewrite Hd.
Qed.

End StoreProps.

Module StoreClaims.

Import ModalDicts StoreProps.

Example name_store_init :
  MemoryDict_init Fixture.doc Fixture.schema Fixture.heap0 Fixture.fs_empty
  = (Ok Fixture.name_store, Fixture.heap_name).
Proof. vm_compute. reflexivity. Qed.

Example thumb_store_init :
  DiskDict_init Fixture.doc Fixture.schema Fixture.heap0 Fixture.fs_thumb
  = (Ok Fixture.thumb_store, Fixture.heap_thumb).
Proof. vm_compute. reflexivity. Qed.

(** C10: in a [MemoryDict], [set(k, v)] followed by [get(k)] returns [v],
    for every declared key [k] and every value [v] (the sentinel
    included). *)
Theorem memory_set_then_get (d : ModalDict) (h : gmap loc (gmap string pyval))
    (f : gmap string fnode) (k : string) (v : pyval) :
  cls d = MemoryDict → key_ok d h k = true →
  ∃ s', __setitem__ k v (mkDState d h f) = (Ok tt, s')
        ∧ __getitem__ k s' = (Ok v, s').
Proof.
  intros Hcls (Hc & (l & o & Hm & Hl) & _ & _)%key_ok_inv.
  eexists. split; [by apply memory_setitem with (l := l) (o := o)|].
  apply memory_getitem; auto. simpl. by rewrite lookup_insert_eq.
Qed.

Lemma memory_set_then_get_witness :
  ∃ s', __setitem__ "name" (VStr "intro")
          (mkDState Fixture.name_store Fixture.heap_name Fixture.fs_empty) = (Ok tt, s')
        ∧ __getitem__ "name" s' = (Ok (VStr "intro"), s').
Proof.
  apply (memory_set_then_get Fixture.name_store Fixture.heap_name Fixture.fs_empty
           "name" (VStr "intro")); reflexivity.
Defined.

(** C3, counterexample: a store is built with no thumbnail on disk and
    its [delete('thumbnail')] fails; a second store over the same document
    saves a thumbnail.  The file of the key exists now, but
    [delete('thumbnail')] on the first store raises the [KeyError] of the
    cache, the file stays and [item_present('thumbnail')] is still true. *)
Lemma disk_delete_file_stays :
  DiskDict_init Fixture.doc Fixture.schema Fixture.heap0 Fixture.fs_empty
  = (Ok Fixture.thumb_store, Fixture.heap_absent)
  ∧ fs Fixture.file_is_back !! Fixture.thumb_path = Some (File "PNG")
  ∧ (__delitem__ "thumbnail" Fixture.file_is_back).1 = Raise (KeyError "thumbnail")
  ∧ fs (__delitem__ "thumbnail" Fixture.file_is_back).2 !! Fixture.thumb_path
    = Some (File "PNG")
  ∧ (item_present "thumbnail" (__delitem__ "thumbnail" Fixture.file_is_back).2).1
    = Ok true.
Proof. repeat split; vm_compute; reflexivity. Qed.

(** C3, as amended: in a [DiskDict], for a declared key that is set up
    (the cache has an entry for it, as the constructor and every call that
    returns normally leave it) and whose file exists, [delete(k)]
    succeeds, after it [item_present(k)] is false and the file is gone, and
    a second [delete(k)] raises the error of the file system for a missing
    file. *)
Theorem disk_delete_twice (d : ModalDict) (h : gmap loc (gmap string pyval))
    (f : gmap string fnode) (k p content : string) :
  cls d = DiskDict → key_ok d h k = true →
  paths d !! k = Some p → f !! p = Some (File content) →
  ∃ s1, __delitem__ k (mkDState d h f) = (Ok tt, s1)
        ∧ item_present k s1 = (Ok false, s1)
        ∧ fs s1 !! p = None
        ∧ ∃ s2, __delitem__ k s1 = (Raise (OSError "No such file or directory"), s2).
Proof.
  intros Hcls (Hc & (l & o & Hm & Hl) & (v & Hd) & _)%key_ok_inv Hp Hf.
  pose proof (disk_delitem d h f k p l o v Hcls Hc Hm Hl Hp Hd) as H1.
  unfold os_remove in H1. rewrite Hf in H1. simpl in H1.
  eexists. split; [exact H1|].
  split.
  { rewrite (disk_item_present _ _ _ k p); auto.
    unfold os_path_exists. by rewrite lookup_delete_eq. }
  split; [simpl; by rewrite lookup_delete_eq|].
  eexists.
  rewrite (disk_delitem _ _ _ k p l (<["present" := VBool false]> o) VNone); auto.
  - unfold os_remove. rewrite lookup_delete_eq. reflexivity.
  - by rewrite lookup_insert_eq.
  - simpl. by rewrite lookup_insert_eq.
Qed.

Lemma disk_delete_twice_witness :
  ∃ s1, __delitem__ "thumbnail"
          (mkDState Fixture.thumb_store Fixture.heap_thumb Fixture.fs_thumb) = (Ok tt, s1)
        ∧ item_present "thumbnail" s1 = (Ok false, s1)
        ∧ fs s1 !! Fixture.thumb_path = None
        ∧ ∃ s2, __delitem__ "thumbnail" s1
                = (Raise (OSError "No such file or directory"), s2).
Proof.
  apply (disk_delete_twice Fixture.thumb_store Fixture.heap_thumb Fixture.fs_thumb
           "thumbnail" Fixture.thumb_path "JFIF"); reflexivity.
Defined.

(** C4: in a [DiskDict], when [delete(k)] fails in the removal of the
    file, the entry of [k] in the cache is gone and stays gone, [k] is
    still a declared key, and the next [get(k)] raises the [KeyError] of
    the lookup in the cache; a missing file is one way to fail. *)
Theorem disk_delete_not_atomic (d : ModalDict) (h : gmap loc (gmap string pyval))
    (f : gmap string fnode) (k p : string) (e : exn) :
  cls d = DiskDict → key_ok d h k = true →
  paths d !! k = Some p → (os_remove f p).1 = Raise e →
  ∃ s1, __delitem__ k (mkDState d h f) = (Raise e, s1)
        ∧ data (self s1) !! k = None
        ∧ __contains__ (self s1) k = true
        ∧ __getitem__ k s1 = (Raise (KeyError k), s1)
        ∧ (f !! p = None → e = OSError "No such file or directory").
Proof.
  intros Hcls (Hc & (l & o & Hm & Hl) & (v & Hd) & _)%key_ok_inv Hp Hrm.
  pose proof (disk_delitem d h f k p l o v Hcls Hc Hm Hl Hp Hd) as H1.
  destruct (os_remove f p) as [[u|e'] f'] eqn:Hos; simpl in Hrm; [done|].
  injection Hrm as ->. simpl in H1.
  eexists. split; [exact H1|].
  split; [simpl; by rewrite lookup_delete_eq|].
  split; [done|].
  split.
  - apply disk_getitem_no_entry; auto. simpl. by rewrite lookup_delete_eq.
  - intros Hnone. unfold os_remove in Hos. rewrite Hnone in Hos. congruence.
Qed.

Lemma disk_delete_not_atomic_witness :
  ∃ s1, __delitem__ "thumbnail"
          (mkDState Fixture.thumb_store Fixture.heap_thumb Fixture.fs_empty)
        = (Raise (OSError "No such file or directory"), s1)
        ∧ data (self s1) !! "thumbnail" = None
        ∧ __getitem__ "thumbnail" s1 = (Raise (KeyError "thumbnail"), s1).
Proof.
  assert (Hk : key_ok Fixture.thumb_store Fixture.heap_thumb "thumbnail" = true)
    by reflexivity.
  destruct (disk_delete_not_atomic Fixture.thumb_store Fixture.heap_thumb Fixture.fs_empty
              "thumbnail" Fixture.thumb_path (OSError "No such file or directory")
              eq_refl Hk eq_refl eq_refl)
    as (s1 & H1 & H2 & _ & H4 & _).
  exists s1. auto.
Defined.

(** C6, counterexample: a store is built with no thumbnail on disk and
    its [delete('thumbnail')] fails.  Nothing is cached for the key and
    its file does not exist, yet [get('thumbnail')] raises the [KeyError]
    of the cache instead of returning the sentinel. *)
Lemma disk_get_no_sentinel :
  DiskDict_init Fixture.doc Fixture.schema Fixture.heap0 Fixture.fs_empty
  = (Ok Fixture.thumb_store, Fixture.heap_absent)
  ∧ (run_calls [Del "thumbnail"; Get "thumbnail"]
       (mkDState Fixture.thumb_store Fixture.heap_absent Fixture.fs_empty)).1
    = [Raise (OSError "No such file or directory"); Raise (KeyError "thumbnail")]
  ∧ data (self Fixture.after_failed_delete) !! "thumbnail" = None
  ∧ fs Fixture.after_failed_delete !! Fixture.thumb_path = None
  ∧ (__getitem__ "thumbnail" Fixture.after_failed_delete).1 ≠ Ok VNone.
Proof. repeat split; vm_compute; try reflexivity. discriminate. Qed.

(** C6, as amended: the read hook of a [DiskDict], for a declared key
    that is set up (the cache has an entry for it, as the constructor and
    every call that returns normally leave it): when the entry holds
    [None] and the file is there, [get(k)] calls the load function of [k]
    on the path of [k], caches what it returns and returns it; when the
    entry holds another value it returns that value and loads nothing;
    when the entry holds [None] and there is no file it returns the
    sentinel. *)
Theorem disk_get_cache_aside (d : ModalDict) (h : gmap loc (gmap string pyval))
    (f : gmap string fnode) (k p : string) (lf : load_fn) :
  cls d = DiskDict → key_ok d h k = true →
  paths d !! k = Some p → load_funcs d !! k = Some lf →
  (data d !! k = Some VNone → os_path_exists f p = true →
     ∀ v, lf p f = Ok v →
          __getitem__ k (mkDState d h f)
          = (Ok v, mkDState (with_data (<[k := v]> (data d)) d) h f))
  ∧ (∀ v, data d !! k = Some v → v ≠ VNone →
          __getitem__ k (mkDState d h f) = (Ok v, mkDState d h f))
  ∧ (data d !! k = Some VNone → os_path_exists f p = false →
     __getitem__ k (mkDState d h f) = (Ok VNone, mkDState d h f)).
Proof.
  intros Hcls (Hc & _ & _ & _)%key_ok_inv Hp Hlf.
  split; [|split].
  - intros Hd He v Hv.
    rewrite (disk_getitem d h f k p lf VNone); auto. simpl. by rewrite He, Hv.
  - intros v Hd Hv.
    rewrite (disk_getitem d h f k p lf v); auto. by destruct v.
  - intros Hd He.
    rewrite (disk_getitem d h f k p lf VNone); auto. simpl. by rewrite He.
Qed.

Lemma disk_get_cache_aside_witness :
  __getitem__ "thumbnail" (mkDState Fixture.thumb_store Fixture.heap_thumb Fixture.fs_thumb)
  = (Ok (VStr "JFIF"),
     mkDState (with_data (<["thumbnail" := VStr "JFIF"]> (data Fixture.thumb_store))
                         Fixture.thumb_store)
              Fixture.heap_thumb Fixture.fs_thumb)
  ∧ __getitem__ "thumbnail" (mkDState Fixture.thumb_store Fixture.heap_thumb Fixture.fs_empty)
    = (Ok VNone, mkDState Fixture.thumb_store Fixture.heap_thumb Fixture.fs_empty).
Proof.
  assert (Hk : key_ok Fixture.thumb_store Fixture.heap_thumb "thumbnail" = true)
    by reflexivity.
  split.
  - destruct (disk_get_cache_aside Fixture.thumb_store Fixture.heap_thumb Fixture.fs_thumb
                "thumbnail" Fixture.thumb_path Fixture.read_text
                eq_refl Hk eq_refl eq_refl) as (H1 & _ & _).
    apply H1; reflexivity.
  - destruct (disk_get_cache_aside Fixture.thumb_store Fixture.heap_thumb Fixture.fs_empty
                "thumbnail" Fixture.thumb_path Fixture.read_text
                eq_refl Hk eq_refl eq_refl) as (_ & _ & H3).
    apply H3; reflexivity.
Defined.

End StoreClaims.

(* ===================================================================== *)
(** * What the item stores write into the document                        *)
(* ===================================================================== *)

Module StoreFrame.

Import ModalDicts.

Create HintDb frames.

Lemma only_present_refl locs h : only_present locs h h.
Proof. intros l. by left. Qed.

Lemma only_present_trans locs h1 h2 h3 :
  only_present locs h1 h2 → only_present locs h2 h3 → only_present locs h1 h3.
Proof.
  intros H12 H23 l.
  destruct (H23 l) as [E23|(Hl & o2 & o3 & E2 & E3 & D23)].
  - rewrite E23. apply H12.
  - destruct (H12 l) as [E12|(_ & o1 & o2' & E1 & E2' & D12)].
    + right. split; [done|]. exists o2, o3. rewrite <- E12. auto.
    + right. split; [done|]. exists o1, o3. repeat split; auto.
      assert (o2' = o2) as -> by congruence. congruence.
Qed.

Lemma only_present_weaken (locs locs' : loc → Prop) h h' :
  (∀ l, locs l → locs' l) → only_present locs h h' → only_present locs' h h'.
Proof.
  intros Hsub H l. destruct (H l) as [E|(Hl & Hrest)]; [by left|].
  right. split; auto.
Qed.

Lemma only_present_write (locs : loc → Prop) h l o v :
  locs l → h !! l = Some o →
  only_present locs h (<[l := <["present" := v]> o]> h).
Proof.
  intros Hl Ho l'. destruct (decide (l = l')) as [<-|Hne].
  - right. split; [done|]. eexists o, _. rewrite lookup_insert_eq.
    repeat split; auto. apply delete_insert_eq.
  - left. by rewrite lookup_insert_ne.
Qed.

Lemma stable_refl s : stable s s.
Proof. repeat split. apply only_present_refl. Qed.

Lemma stable_trans s1 s2 s3 : stable s1 s2 → stable s2 s3 → stable s1 s3.
Proof.
  intros (K12 & M12 & H12) (K23 & M23 & H23). repeat split; try congruence.
  eapply only_present_trans; [exact H12|].
  eapply only_present_weaken; [|exact H23].
  unfold meta_loc. intros l [k Hk]. exists k. by rewrite <- M12.
Qed.

(** ** The monad *)

Lemma frames_ret {A} (a : A) : frames (ret a).
Proof. intros s. apply stable_refl. Qed.

Lemma frames_raise {A} (e : exn) : frames (@raise dstate A e).
Proof. intros s. apply stable_refl. Qed.

Lemma frames_gets {A} (g : dstate → A) : frames (gets g).
Proof. intros s. apply stable_refl. Qed.

Lemma frames_bind {A B} (m : M dstate A) (k : A → M dstate B) :
  frames m → (∀ a, frames (k a)) → frames (bind m k).
Proof.
  intros Hm Hk s. unfold bind. specialize (Hm s).
  destruct (m s) as [[a|e] s']; simpl in *; [|done].
  eapply stable_trans; [exact Hm | apply Hk].
Qed.

Lemma frames_if {A} (b : bool) (m1 m2 : M dstate A) :
  frames m1 → frames m2 → frames (if b then m1 else m2).
Proof. by destruct b. Qed.

(** A method that changes neither the keys, the metadata nor the heap. *)
Lemma frames_local {A} (m : M dstate A) :
  (∀ s, keys (self (m s).2) = keys (self s)
        ∧ metadata (self (m s).2) = metadata (self s)
        ∧ heap (m s).2 = heap s) →
  frames m.
Proof.
  intros H s. destruct (H s) as (HK & HM & HH). repeat split; auto.
  rewrite HH. apply only_present_refl.
Qed.

Lemma frames_for_each {A} (xs : list A) (body : A → M dstate unit) :
  (∀ x, frames (body x)) → frames (for_each xs body).
Proof.
  intros Hb. induction xs as [|x xs IH]; simpl.
  - apply frames_ret.
  - apply frames_bind; auto.
Qed.

#[export] Hint Resolve frames_ret frames_raise frames_gets frames_bind frames_if
  frames_for_each : frames.

(** ** The attributes *)

Lemma frames_detect_keyerror k : frames (detect_keyerror k).
Proof.
  apply frames_local. intros s. unfold detect_keyerror.
  by destruct (__contains__ (self s) k).
Qed.

Lemma frames_data_get k : frames (data_get k).
Proof.
  apply frames_local. intros s. unfold data_get.
  by destruct (data (self s) !! k).
Qed.

Lemma frames_data_set k v : frames (data_set k v).
Proof. apply frames_local. by intros s. Qed.

Lemma frames_data_del k : frames (data_del k).
Proof.
  apply frames_local. intros s. unfold data_del.
  by destruct (data (self s) !! k).
Qed.

Lemma frames_path_get k : frames (path_get k).
Proof.
  apply frames_local. intros s. unfold path_get.
  by destruct (paths (self s) !! k).
Qed.

Lemma frames_get_present k : frames (get_present k).
Proof.
  apply frames_local. intros s. unfold get_present.
  by destruct (metadata (self s) !! k).
Qed.

(** The one write to the heap. *)
Lemma frames_set_present k v : frames (set_present k v).
Proof.
  intros s. unfold set_present, assign_subscript.
  destruct (metadata (self s) !! k) as [m|] eqn:Hm; [|apply stable_refl].
  destruct m as [| | | |l]; simpl; try (repeat split; apply only_present_refl).
  destruct (heap s !! l) as [o|] eqn:Ho; simpl;
    [|repeat split; apply only_present_refl].
  repeat split. apply only_present_write; [|done]. by exists k.
Qed.

#[export] Hint Resolve frames_detect_keyerror frames_data_get frames_data_set
  frames_data_del frames_path_get frames_get_present frames_set_present : frames.

(** ** The hooks *)

Lemma frames_MemoryDict_get_item k : frames (MemoryDict_get_item k).
Proof. unfold MemoryDict_get_item. auto with frames. Qed.

Lemma frames_DiskDict_item_present k : frames (DiskDict_item_present k).
Proof. unfold DiskDict_item_present. auto with frames. Qed.

Lemma frames_DiskDict_load_item k : frames (DiskDict_load_item k).
Proof.
  apply frames_local. intros s. unfold DiskDict_load_item.
  destruct (negb _); [done|].
  destruct (load_funcs (self s) !! k) as [lf|]; [|done].
  destruct (paths (self s) !! k) as [p|]; [|done].
  by destruct (lf p (fs s)).
Qed.

Lemma frames_DiskDict_save_item k : frames (DiskDict_save_item k).
Proof.
  apply frames_local. intros s. unfold DiskDict_save_item.
  destruct (negb _); [done|].
  destruct (save_funcs (self s) !! k) as [[sf|]|]; try done.
  destruct (data (self s) !! k) as [v|]; [|done].
  destruct (paths (self s) !! k) as [p|]; [|done].
  by destruct (sf v p (fs s)).
Qed.

Lemma frames_remove p :
  frames (λ s, let '(r, f') := os_remove (fs s) p in (r, with_fs f' s)).
Proof. apply frames_local. intros s. by destruct (os_remove (fs s) p). Qed.

#[export] Hint Resolve frames_MemoryDict_get_item frames_DiskDict_item_present
  frames_DiskDict_load_item frames_DiskDict_save_item frames_remove : frames.

Lemma frames_DiskDict_get_item k : frames (DiskDict_get_item k).
Proof.
  unfold DiskDict_get_item. apply frames_bind; [auto with frames|].
  intros v. apply frames_bind; [|auto with frames].
  apply frames_if; [|auto with frames].
  apply frames_bind; [auto with frames|]. intros b. auto with frames.
Qed.

Lemma frames_DiskDict_set_item k v : frames (DiskDict_set_item k v).
Proof. unfold DiskDict_set_item. auto with frames. Qed.

Lemma frames_DiskDict_del_item k : frames (DiskDict_del_item k).
Proof.
  unfold DiskDict_del_item. apply frames_bind; [auto with frames|]. intros _.
  apply frames_bind; [auto with frames|]. intros p.
  apply frames_bind; [apply frames_remove|]. auto with frames.
Qed.

Lemma frames_get_item k : frames (get_item k).
Proof.
  intros s. unfold get_item. destruct (cls (self s)).
  - apply frames_MemoryDict_get_item.
  - apply frames_DiskDict_get_item.
Qed.

Lemma frames_set_item k v : frames (set_item k v).
Proof.
  intros s. unfold set_item. destruct (cls (self s)).
  - apply frames_data_set.
  - apply frames_DiskDict_set_item.
Qed.

Lemma frames_del_item k : frames (del_item k).
Proof.
  intros s. unfold del_item. destruct (cls (self s)).
  - apply frames_data_set.
  - apply frames_DiskDict_del_item.
Qed.

#[export] Hint Resolve frames_get_item frames_set_item frames_del_item : frames.

(** ** The methods *)

Lemma frames_getitem k : frames (__getitem__ k).
Proof. unfold __getitem__. auto with frames. Qed.

Lemma frames_item_present k : frames (item_present k).
Proof.
  intros s. unfold item_present. destruct (cls (self s)).
  - unfold MemoryDict_item_present.
    apply frames_bind; [apply frames_getitem | auto with frames].
  - apply frames_DiskDict_item_present.
Qed.

Lemma frames_setitem k v : frames (__setitem__ k v).
Proof. unfold __setitem__. auto with frames. Qed.

Lemma frames_delitem k : frames (__delitem__ k).
Proof. unfold __delitem__. auto with frames. Qed.

#[export] Hint Resolve frames_getitem frames_item_present frames_setitem
  frames_delitem : frames.

Lemma frames_refresh k : frames (refresh k).
Proof. unfold refresh. auto with frames. Qed.

Lemma frames_update_item_metadata : frames update_item_metadata.
Proof.
  unfold update_item_metadata. apply frames_bind; [auto with frames|].
  intros ks. apply frames_for_each. intros k. apply frames_refresh.
Qed.

Lemma frames_collect_present ks : frames (collect_present ks).
Proof.
  induction ks as [|k ks IH]; simpl; [auto with frames|].
  apply frames_bind; [auto with frames|]. intros v.
  apply frames_bind; [auto with frames|]. intros b.
  apply frames_bind; [exact IH|]. auto with frames.
Qed.

#[export] Hint Resolve frames_update_item_metadata frames_collect_present : frames.

Lemma frames_present_items : frames present_items.
Proof.
  unfold present_items. apply frames_bind; [auto with frames|]. intros _.
  apply frames_bind; [auto with frames|]. intros ks.
  apply frames_bind; auto with frames.
Qed.

Lemma frames_absent_items : frames absent_items.
Proof.
  unfold absent_items. apply frames_bind; [apply frames_present_items|].
  intros p. auto with frames.
Qed.

#[export] Hint Resolve frames_present_items frames_absent_items : frames.

Lemma frames_run_call c : frames (run_call c).
Proof. destruct c; simpl; auto with frames. Qed.

Lemma store_calls_cons c cs s :
  (run_calls (c :: cs) s).2 = (run_calls cs (run_call c s).2).2.
Proof.
  simpl. destruct (run_call c s) as [r s']. simpl.
  by destruct (run_calls cs s') as [rs s''].
Qed.

Lemma stable_run_calls cs s : stable s (run_calls cs s).2.
Proof.
  revert s. induction cs as [|c cs IH]; intros s.
  - apply stable_refl.
  - rewrite store_calls_cons.
    eapply stable_trans; [apply frames_run_call | apply IH].
Qed.

End StoreFrame.

(* ===================================================================== *)
(** * A MemoryDict does not see the flags                                 *)
(* ===================================================================== *)

Module MemoryBlind.

Import ModalDicts.

Create HintDb blind.

Lemma strip_lookup h1 h2 l o1 :
  strip h1 = strip h2 → h1 !! l = Some o1 →
  ∃ o2, h2 !! l = Some o2 ∧ delete "present" o1 = delete "present" o2.
Proof.
  intros Hs H1. apply (f_equal (λ h, h !! l)) in Hs. unfold strip in Hs.
  rewrite !lookup_fmap, H1 in Hs. simpl in Hs.
  destruct (h2 !! l) as [o2|]; simpl in Hs; [|done].
  exists o2. split; congruence.
Qed.

Lemma strip_lookup_None h1 h2 l :
  strip h1 = strip h2 → h1 !! l = None → h2 !! l = None.
Proof.
  intros Hs H1. apply (f_equal (λ h, h !! l)) in Hs. unfold strip in Hs.
  rewrite !lookup_fmap, H1 in Hs. simpl in Hs.
  by destruct (h2 !! l).
Qed.

Lemma strip_write h l o v :
  strip (<[l := <["present" := v]> o]> h) = <[l := delete "present" o]> (strip h).
Proof. unfold strip. by rewrite fmap_insert, delete_insert_eq. Qed.

Lemma write_present_eq (o1 o2 : gmap string pyval) v :
  delete "present" o1 = delete "present" o2 →
  <["present" := v]> o1 = <["present" := v]> o2.
Proof.
  intros H. rewrite <- (insert_delete_eq o1), <- (insert_delete_eq o2). by rewrite H.
Qed.

(** ** The monad *)

Lemma blind_ret {A} (a : A) : blind (ret a).
Proof. by intros s1 s2 H. Qed.

Lemma blind_raise {A} (e : exn) : blind (@raise dstate A e).
Proof. by intros s1 s2 H. Qed.

Lemma blind_bind {A B} (m : M dstate A) (k : A → M dstate B) :
  blind m → (∀ a, blind (k a)) → blind (bind m k).
Proof.
  intros Hm Hk s1 s2 Ha. unfold bind. destruct (Hm s1 s2 Ha) as [Hr Hs].
  destruct (m s1) as [[a1|e1] s1'], (m s2) as [[a2|e2] s2']; simpl in *;
    try discriminate.
  - injection Hr as ->. by apply Hk.
  - injection Hr as ->. by split.
Qed.

Lemma blind_for_each {A} (xs : list A) (body : A → M dstate unit) :
  (∀ x, blind (body x)) → blind (for_each xs body).
Proof.
  intros Hb. induction xs as [|x xs IH]; simpl.
  - apply blind_ret.
  - apply blind_bind; auto.
Qed.

(** A method that reads the instance only. *)
Lemma blind_reader {A} (m : M dstate A) :
  (∀ s1 s2, self s1 = self s2 → (m s1).1 = (m s2).1) →
  (∀ s, (m s).2 = s) →
  blind m.
Proof.
  intros Hr Hs s1 s2 Ha. rewrite !Hs. split; [|done].
  apply Hr. by destruct Ha as [[? _] _].
Qed.

Lemma blind_dispatch {A} (m1 m2 : M dstate A) :
  blind m1 →
  blind (λ s, match cls (self s) with MemoryDict => m1 s | DiskDict => m2 s end).
Proof.
  intros H1 s1 s2 Ha. pose proof Ha as [[Hs _] Hc].
  rewrite <- Hs, Hc. by apply H1.
Qed.

#[export] Hint Resolve blind_ret blind_raise blind_bind blind_for_each : blind.

(** ** The attributes *)

Lemma blind_detect_keyerror k : blind (detect_keyerror k).
Proof.
  apply blind_reader; intros; unfold detect_keyerror.
  - rewrite H. by destruct (__contains__ (self s2) k).
  - by destruct (__contains__ (self s) k).
Qed.

Lemma blind_data_get k : blind (data_get k).
Proof.
  apply blind_reader; intros; unfold data_get.
  - rewrite H. by destruct (data (self s2) !! k).
  - by destruct (data (self s) !! k).
Qed.

Lemma blind_gets_self {A} (g : ModalDict → A) : blind (gets (λ s, g (self s))).
Proof. apply blind_reader; intros; unfold gets; simpl; congruence. Qed.

Lemma blind_data_set k v : blind (data_set k v).
Proof.
  intros s1 s2 [(Hs & Hf & Hh) Hc]. unfold data_set, modify. simpl.
  split; [done|]. repeat split; simpl; congruence.
Qed.

Lemma blind_set_present k v : blind (set_present k v).
Proof.
  intros s1 s2 [(Hs & Hf & Hh) Hc]. unfold set_present, assign_subscript.
  rewrite <- Hs.
  destruct (metadata (self s1) !! k) as [m|]; [|by repeat split].
  destruct m as [| | | |l]; simpl; try by repeat split.
  destruct (heap s1 !! l) as [o1|] eqn:H1.
  - destruct (strip_lookup _ _ l o1 Hh H1) as (o2 & H2 & Ho). rewrite H2. simpl.
    split; [done|]. repeat split; simpl; auto.
    rewrite !strip_write. by rewrite Hh, Ho.
  - rewrite (strip_lookup_None _ _ l Hh H1). simpl. by repeat split.
Qed.

#[export] Hint Resolve blind_detect_keyerror blind_data_get blind_gets_self
  blind_data_set blind_set_present : blind.

(** ** The methods *)

Lemma blind_get_item k : blind (get_item k).
Proof. apply blind_dispatch. unfold MemoryDict_get_item. auto with blind. Qed.

Lemma blind_set_item k v : blind (set_item k v).
Proof. apply blind_dispatch. apply blind_data_set. Qed.

Lemma blind_del_item k : blind (del_item k).
Proof. apply blind_dispatch. apply blind_data_set. Qed.

#[export] Hint Resolve blind_get_item blind_set_item blind_del_item : blind.

Lemma blind_getitem k : blind (__getitem__ k).
Proof. unfold __getitem__. auto with blind. Qed.

Lemma blind_item_present k : blind (item_present k).
Proof.
  apply blind_dispatch. unfold MemoryDict_item_present.
  apply blind_bind; [apply blind_getitem | auto with blind].
Qed.

Lemma blind_setitem k v : blind (__setitem__ k v).
Proof. unfold __setitem__. auto with blind. Qed.

Lemma blind_delitem k : blind (__delitem__ k).
Proof. unfold __delitem__. auto with blind. Qed.

#[export] Hint Resolve blind_getitem blind_item_present blind_setitem
  blind_delitem : blind.

Lemma blind_refresh k : blind (refresh k).
Proof. unfold refresh. auto with blind. Qed.

Lemma blind_update_item_metadata : blind update_item_metadata.
Proof.
  unfold update_item_metadata.
  apply blind_bind; [apply (blind_gets_self (λ d, elements (keys d)))|].
  intros ks. apply blind_for_each. intros k. apply blind_refresh.
Qed.

(** ** [present_items] reads the flags it has just written *)

Lemma memory_item_present_state k s :
  cls (self s) = MemoryDict → (item_present k s).2 = s.
Proof.
  intros Hc. unfold item_present. rewrite Hc.
  unfold MemoryDict_item_present, __getitem__, bind, detect_keyerror, get_item.
  destruct (__contains__ (self s) k) eqn:E; [|done]. rewrite Hc.
  unfold MemoryDict_get_item, bind, detect_keyerror, data_get. rewrite E.
  by destruct (data (self s) !! k).
Qed.

(** A round for key [k] that succeeds makes the two heaps agree on [k],
    and they go on agreeing where they did. *)
Lemma refresh_agree k s1 s2 :
  alike s1 s2 → (refresh k s1).1 = Ok tt →
  agree (refresh k s1).2 (refresh k s2).2 k
  ∧ ∀ k', agree s1 s2 k' → agree (refresh k s1).2 (refresh k s2).2 k'.
Proof.
  intros Ha. pose proof Ha as [(Hs & Hf & Hh) Hc].
  assert (Hc2 : cls (self s2) = MemoryDict) by congruence.
  destruct (blind_item_present k s1 s2 Ha) as [Hr _].
  pose proof (memory_item_present_state k s1 Hc) as E1.
  pose proof (memory_item_present_state k s2 Hc2) as E2.
  unfold refresh, bind.
  destruct (item_present k s1) as [[b|e] s1'], (item_present k s2) as [[b2|e2] s2'];
    simpl in *; try discriminate.
  subst s1' s2'. injection Hr as <-.
  unfold set_present, assign_subscript. rewrite <- Hs.
  destruct (metadata (self s1) !! k) as [m|] eqn:Hm; [|done].
  destruct m as [| | | |l]; simpl; try done.
  destruct (heap s1 !! l) as [o1|] eqn:H1; simpl; [|done].
  destruct (strip_lookup _ _ l o1 Hh H1) as (o2 & H2 & Ho). rewrite H2. simpl.
  intros _.
  pose proof (write_present_eq o1 o2 (VBool b) Ho) as Hw.
  split.
  - exists l, (<["present" := VBool b]> o1), b. simpl.
    rewrite <- Hw, !lookup_insert_eq. by rewrite Hm.
  - intros k' (l' & o' & b' & Hm' & H1' & H2' & Hp').
    destruct (decide (l = l')) as [<-|Hne].
    + exists l, (<["present" := VBool b]> o1), b. simpl.
      rewrite <- Hw, !lookup_insert_eq. by rewrite Hm'.
    + exists l', o', b'. simpl. by rewrite !lookup_insert_ne.
Qed.

Lemma for_each_refresh_agree ks s1 s2 (acc : list string) :
  alike s1 s2 → (∀ k, k ∈ acc → agree s1 s2 k) →
  (for_each ks refresh s1).1 = Ok tt →
  ∀ k, k ∈ acc ∨ k ∈ ks →
       agree (for_each ks refresh s1).2 (for_each ks refresh s2).2 k.
Proof.
  revert s1 s2 acc. induction ks as [|k0 ks IH]; intros s1 s2 acc Ha Hacc Hok k Hk.
  - simpl. destruct Hk as [Hk|Hk]; [by apply Hacc | by apply elem_of_nil in Hk].
  - simpl in *. unfold bind in *.
    destruct (blind_refresh k0 s1 s2 Ha) as [Hr Ha'].
    destruct (refresh_agree k0 s1 s2 Ha) as [Hk0 Hkeep].
    { by destruct (refresh k0 s1) as [[[]|e] s1']. }
    destruct (refresh k0 s1) as [[[]|e1] s1'], (refresh k0 s2) as [[[]|e2] s2'];
      simpl in *; try discriminate.
    apply (IH s1' s2' (k0 :: acc)); auto.
    + intros k' [->|Hk']%elem_of_cons; auto.
    + rewrite elem_of_cons. destruct Hk as [Hk|[->|Hk]%elem_of_cons]; auto.
Qed.

Lemma collect_present_agree ks s1 s2 :
  self s1 = self s2 → (∀ k, k ∈ ks → agree s1 s2 k) →
  (collect_present ks s1).1 = (collect_present ks s2).1
  ∧ (collect_present ks s1).2 = s1 ∧ (collect_present ks s2).2 = s2.
Proof.
  intros Hs. induction ks as [|k ks IH]; intros Hag; [done|].
  destruct IH as (IH1 & IH2 & IH3).
  { intros k' Hk'. apply Hag. by apply elem_of_cons; right. }
  destruct (Hag k) as (l & o & b & Hm & H1 & H2 & Hp); [apply list_elem_of_here|].
  simpl. unfold bind, get_present, gets, ret, subscript.
  rewrite <- Hs, Hm, H1, H2, Hp. simpl.
  destruct (collect_present ks s1) as [[r1|e1] s1'],
           (collect_present ks s2) as [[r2|e2] s2']; simpl in *; try discriminate.
  - injection IH1 as ->. by subst.
  - injection IH1 as ->. by subst.
Qed.

Lemma present_items_unfold s :
  present_items s
  = match for_each (elements (keys (self s))) refresh s with
    | (Ok _, s') =>
        match collect_present (elements (keys (self s'))) s' with
        | (Ok r, s'') => (Ok (list_to_set r), s'')
        | (Raise e, s'') => (Raise e, s'')
        end
    | (Raise e, s') => (Raise e, s')
    end.
Proof. reflexivity. Qed.

Lemma blind_present_items : blind present_items.
Proof.
  intros s1 s2 Ha. rewrite !present_items_unfold.
  pose proof Ha as [(Hs & _ & _) _].
  destruct (blind_for_each (elements (keys (self s1))) refresh blind_refresh s1 s2 Ha)
    as [Hr Ha'].
  pose proof (for_each_refresh_agree (elements (keys (self s1))) s1 s2 [] Ha) as Hag.
  pose proof (StoreFrame.frames_for_each (elements (keys (self s1))) refresh
                StoreFrame.frames_refresh s1) as (HK & _ & _).
  rewrite <- Hs.
  destruct (for_each (elements (keys (self s1))) refresh s1) as [[[]|e1] s1'],
           (for_each (elements (keys (self s1))) refresh s2) as [[[]|e2] s2'];
    simpl in *; try discriminate.
  - pose proof Ha' as [(Hs' & _ & _) _].
    destruct (collect_present_agree (elements (keys (self s1'))) s1' s2' Hs')
      as (C1 & C2 & C3).
    { intros k Hk. apply Hag; auto.
      - intros k' Hk'. by apply elem_of_nil in Hk'.
      - right. by rewrite <- HK. }
    rewrite <- Hs'.
    destruct (collect_present (elements (keys (self s1'))) s1') as [[r1|e1] t1],
             (collect_present (elements (keys (self s1'))) s2') as [[r2|e2] t2];
      simpl in *; try discriminate; subst.
    + injection C1 as ->. by split.
    + injection C1 as ->. by split.
  - injection Hr as ->. by split.
Qed.

#[export] Hint Resolve blind_present_items : blind.

Lemma blind_absent_items : blind absent_items.
Proof.
  unfold absent_items. apply blind_bind; [apply blind_present_items|].
  intros p. apply blind_bind; [apply (blind_gets_self keys)|]. auto with blind.
Qed.

Lemma blind_run_call c : blind (run_call c).
Proof.
  destruct c; simpl; auto using blind_absent_items with blind.
Qed.

Lemma run_calls_alike cs s1 s2 :
  alike s1 s2 → (run_calls cs s1).1 = (run_calls cs s2).1.
Proof.
  revert s1 s2. induction cs as [|c cs IH]; intros s1 s2 Ha; [done|].
  simpl. destruct (blind_run_call c s1 s2 Ha) as [Hr Ha'].
  specialize (IH _ _ Ha').
  destruct (run_call c s1) as [r1 s1'], (run_call c s2) as [r2 s2']. simpl in *.
  destruct (run_calls cs s1') as [rs1 t1], (run_calls cs s2') as [rs2 t2].
  simpl in *. congruence.
Qed.

End MemoryBlind.

Module MemoryClaims.

Import ModalDicts StoreProps MemoryBlind.

(** C7: in a [MemoryDict], for a declared key [k]: [delete(k)] followed
    by [get(k)] returns the sentinel; any calls made after [delete(k)]
    return what they return after [set(k, None)]; and after [set(k, v)] the
    item is present exactly when [v] is not the sentinel. *)
Theorem memory_delete_is_set_none (d : ModalDict) (h : gmap loc (gmap string pyval))
    (f : gmap string fnode) (k : string) :
  cls d = MemoryDict → key_ok d h k = true →
  ∃ s_del s_set,
    __delitem__ k (mkDState d h f) = (Ok tt, s_del)
    ∧ __getitem__ k s_del = (Ok VNone, s_del)
    ∧ item_present k s_del = (Ok false, s_del)
    ∧ __setitem__ k VNone (mkDState d h f) = (Ok tt, s_set)
    ∧ (∀ cs, (run_calls cs s_del).1 = (run_calls cs s_set).1)
    ∧ (∀ v, ∃ s', __setitem__ k v (mkDState d h f) = (Ok tt, s')
                  ∧ item_present k s' = (Ok (negb (is_none v)), s')).
Proof.
  intros Hcls (Hc & (l & o & Hm & Hl) & _ & _)%key_ok_inv.
  eexists _, _.
  split; [by apply memory_delitem with (l := l) (o := o)|].
  split; [apply memory_getitem; auto; simpl; by rewrite lookup_insert_eq|].
  split.
  { rewrite (memory_item_present _ _ _ k VNone); auto.
    simpl. by rewrite lookup_insert_eq. }
  split; [by apply memory_setitem with (l := l) (o := o)|].
  split.
  - intros cs. apply run_calls_alike. repeat split; auto. simpl.
    by rewrite !strip_write.
  - intros v. eexists.
    split; [by apply memory_setitem with (l := l) (o := o)|].
    apply memory_item_present; auto. simpl. by rewrite lookup_insert_eq.
Qed.

Lemma memory_delete_is_set_none_witness :
  ∃ s_del s_set,
    __delitem__ "name" (mkDState Fixture.name_store Fixture.heap_name Fixture.fs_empty)
    = (Ok tt, s_del)
    ∧ __getitem__ "name" s_del = (Ok VNone, s_del)
    ∧ __setitem__ "name" VNone
        (mkDState Fixture.name_store Fixture.heap_name Fixture.fs_empty) = (Ok tt, s_set)
    ∧ (run_calls [PresentItems; Get "name"; AbsentItems] s_del).1
      = (run_calls [PresentItems; Get "name"; AbsentItems] s_set).1.
Proof.
  assert (Hk : key_ok Fixture.name_store Fixture.heap_name "name" = true)
    by reflexivity.
  destruct (memory_delete_is_set_none Fixture.name_store Fixture.heap_name
              Fixture.fs_empty "name" eq_refl Hk)
    as (s_del & s_set & H1 & H2 & _ & H4 & H5 & _).
  exists s_del, s_set. auto.
Defined.

End MemoryClaims.

(* ===================================================================== *)
(** * The document, before and after                                      *)
(* ===================================================================== *)

Module DocumentFrame.

Import ModalDicts.

Lemma dict_comp_lookup {V} (g : string → res V) ks m k v :
  dict_comp g ks = Ok m → m !! k = Some v → g k = Ok v.
Proof.
  revert m. induction ks as [|k0 ks IH]; intros m; simpl.
  - intros [= <-]. by rewrite lookup_empty.
  - destruct (g k0) as [v0|e] eqn:E0; [|done].
    destruct (dict_comp g ks) as [m0|e]; [|done].
    intros [= <-]. destruct (decide (k0 = k)) as [->|Hne].
    + rewrite lookup_insert_eq. by intros [= <-].
    + rewrite lookup_insert_ne; [|done]. by apply IH.
Qed.

Lemma ModalDict_init_meta c doc schema h d l :
  ModalDict_init c doc schema h = Ok d → meta_loc d l → doc_item_loc h doc l.
Proof.
  unfold ModalDict_init.
  destruct (dict_comp (doc_item h doc) _) as [md|e] eqn:E; [|done].
  intros [= <-] [k Hk]. simpl in Hk. exists k.
  by apply (dict_comp_lookup _ _ _ _ _ E).
Qed.

Lemma finish_init_frame d h f :
  only_present (meta_loc d) h (finish_init d h f).2.
Proof.
  unfold finish_init.
  destruct (StoreFrame.frames_update_item_metadata (mkDState d h f)) as (_ & _ & H).
  by destruct (update_item_metadata (mkDState d h f)) as [[u|e] s].
Qed.

Lemma MemoryDict_init_frame doc schema h f :
  only_present (doc_item_loc h doc) h (MemoryDict_init doc schema h f).2.
Proof.
  unfold MemoryDict_init.
  destruct (ModalDict_init MemoryDict doc schema h) as [d0|e] eqn:E0;
    [|apply StoreFrame.only_present_refl].
  destruct (dict_comp _ _) as [dat|e]; [|apply StoreFrame.only_present_refl].
  eapply StoreFrame.only_present_weaken; [|apply finish_init_frame].
  intros l Hl. by apply (ModalDict_init_meta MemoryDict doc schema h d0).
Qed.

Lemma DiskDict_init_frame doc schema h f :
  only_present (doc_item_loc h doc) h (DiskDict_init doc schema h f).2.
Proof.
  unfold DiskDict_init.
  destruct (ModalDict_init DiskDict doc schema h) as [d0|e] eqn:E0;
    [|apply StoreFrame.only_present_refl].
  destruct (subscript h doc "root") as [root|e]; [|apply StoreFrame.only_present_refl].
  destruct (dict_comp (schema_entry schema s_load_func "load_func") _) as [lf|e];
    [|apply StoreFrame.only_present_refl].
  destruct (dict_comp (schema_entry schema s_save_func "save_func") _) as [sf|e];
    [|apply StoreFrame.only_present_refl].
  destruct (dict_comp (item_path schema root) _) as [ps|e];
    [|apply StoreFrame.only_present_refl].
  eapply StoreFrame.only_present_weaken; [|apply finish_init_frame].
  intros l Hl. by apply (ModalDict_init_meta DiskDict doc schema h d0).
Qed.

(** C1, counterexample: on the document of [video_1], the registry's
    [add] puts the child into the table of the document, and a store's
    [delete] clears the flag in the metadata of the document. *)
Lemma document_is_written :
  ChildContainer.__init__ "video_1" [Fixture.Frame] Fixture.doc Fixture.heap0
  = Ok Fixture.video_children
  ∧ (ChildContainer.run_calls Fixture.video_children
       [ChildContainer.Add [ChildContainer.AStr "1"]] Fixture.heap0).2
    ≠ Fixture.heap0
  ∧ MemoryDict_init Fixture.doc Fixture.schema Fixture.heap0 Fixture.fs_empty
    = (Ok Fixture.name_store, Fixture.heap_name)
  ∧ Fixture.heap_name ≠ Fixture.heap0
  ∧ heap (run_calls [Del "name"]
            (mkDState Fixture.name_store Fixture.heap_name Fixture.fs_empty)).2
    ≠ Fixture.heap_name.
Proof.
  split; [vm_compute; reflexivity|].
  split.
  { intros H. apply (f_equal (λ h, h !! 6%positive)) in H. vm_compute in H. discriminate. }
  split; [vm_compute; reflexivity|].
  split.
  { intros H. apply (f_equal (λ h, h !! 4%positive)) in H. vm_compute in H. discriminate. }
  intros H. apply (f_equal (λ h, h !! 4%positive)) in H. vm_compute in H. discriminate.
Qed.

(** C1, as amended: a store copies the values of its items, but its
    metadata are the objects of the document, and the registry's tables
    are the tables of the document.  The constructors of the stores and
    any sequence of calls on a store change nothing in the heap but the
    entry ['present'] of the metadata of the store; any sequence of [get]
    and [add] on the registry changes nothing but entries from a raw id to
    its full id, and on a document that has a table for every declared
    datatype those are entries of these tables. *)
Theorem document_frame :
  (∀ doc schema h f,
     only_present (doc_item_loc h doc) h (MemoryDict_init doc schema h f).2)
  ∧ (∀ doc schema h f,
       only_present (doc_item_loc h doc) h (DiskDict_init doc schema h f).2)
  ∧ (∀ cs s,
       metadata (self (run_calls cs s).2) = metadata (self s)
       ∧ only_present (meta_loc (self s)) (heap s) (heap (run_calls cs s).2))
  ∧ (∀ c xs h,
       ChildContainer.only_tables c (λ _, True) h (ChildContainer.run_calls c xs h).2)
  ∧ (∀ c xs h,
       ChildContainer.registry_ok c h = true →
       ChildContainer.only_tables c (ChildContainer.declared_table c h) h
         (ChildContainer.run_calls c xs h).2).
Proof.
  split; [apply MemoryDict_init_frame|].
  split; [apply DiskDict_init_frame|].
  split.
  { intros cs s. destruct (StoreFrame.stable_run_calls cs s) as (_ & HM & HH). auto. }
  split.
  - intros c xs h. apply RegistryFrame.run_calls_only_tables.
  - intros c xs h. apply RegistryFrame.run_calls_only_declared.
Qed.

Lemma document_frame_witness :
  ChildContainer.only_tables Fixture.video_children
    (ChildContainer.declared_table Fixture.video_children Fixture.heap0) Fixture.heap0
    (ChildContainer.run_calls Fixture.video_children
       [ChildContainer.Add [ChildContainer.AStr "1"];
        ChildContainer.Get [ChildContainer.AStr "1"]] Fixture.heap0).2.
Proof.
  destruct document_frame as (_ & _ & _ & _ & H5).
  apply H5. reflexivity.
Defined.

End DocumentFrame.

(* ===================================================================== *)
(** * Declared keys stay set up                                           *)
(* ===================================================================== *)

(** The constructors set every declared key up ([key_ok]), and a call
    that returns normally keeps it so.  A [delete] of a [DiskDict] that
    fails in the removal of the file does not: it leaves the cache
    without the entry of the key. *)

Module StoreInvariant.

Import ModalDicts.

Create HintDb keeps.

Lemma keeps_ret {A} (a : A) : keeps (ret a).
Proof. by intros s. Qed.

Lemma keeps_raise {A} (e : exn) : keeps (@raise dstate A e).
Proof. by intros s. Qed.

Lemma keeps_gets {A} (g : dstate → A) : keeps (gets g).
Proof. by intros s. Qed.

Lemma keeps_bind {A B} (m : M dstate A) (k : A → M dstate B) :
  keeps m → (∀ a, keeps (k a)) → keeps (bind m k).
Proof.
  intros Hm Hk s. unfold bind. destruct (Hm s) as (C & P & L & S & D).
  destruct (m s) as [[a|e] s']; simpl in *; [|repeat split; auto; done].
  destruct (Hk a s') as (C' & P' & L' & S' & D').
  repeat split; try congruence.
  intros b Hb k0 Hk0. apply (D' b Hb), (D a eq_refl), Hk0.
Qed.

Lemma keeps_if {A} (b : bool) (m1 m2 : M dstate A) :
  keeps m1 → keeps m2 → keeps (if b then m1 else m2).
Proof. by destruct b. Qed.

Lemma keeps_for_each {A} (xs : list A) (body : A → M dstate unit) :
  (∀ x, keeps (body x)) → keeps (for_each xs body).
Proof.
  intros Hb. induction xs as [|x xs IH]; simpl.
  - apply keeps_ret.
  - apply keeps_bind; auto.
Qed.

(** A method that does not change the instance. *)
Lemma keeps_self {A} (m : M dstate A) :
  (∀ s, self (m s).2 = self s) → keeps m.
Proof. intros H s. rewrite H. repeat split; auto. Qed.

#[export] Hint Resolve keeps_ret keeps_raise keeps_gets keeps_bind keeps_if
  keeps_for_each : keeps.

Lemma keeps_detect_keyerror k : keeps (detect_keyerror k).
Proof.
  apply keeps_self. intros s. unfold detect_keyerror.
  by destruct (__contains__ (self s) k).
Qed.

Lemma keeps_data_get k : keeps (data_get k).
Proof.
  apply keeps_self. intros s. unfold data_get. by destruct (data (self s) !! k).
Qed.

Lemma keeps_path_get k : keeps (path_get k).
Proof.
  apply keeps_self. intros s. unfold path_get. by destruct (paths (self s) !! k).
Qed.

Lemma keeps_get_present k : keeps (get_present k).
Proof.
  apply keeps_self. intros s. unfold get_present.
  by destruct (metadata (self s) !! k).
Qed.

Lemma keeps_set_present k v : keeps (set_present k v).
Proof.
  apply keeps_self. intros s. unfold set_present.
  destruct (metadata (self s) !! k) as [m|]; [|done].
  by destruct (assign_subscript (heap s) m "present" v).
Qed.

Lemma keeps_data_set k v : keeps (data_set k v).
Proof.
  intros s. unfold data_set, modify. simpl. repeat split.
  intros _ _ k0 Hk0. destruct (decide (k = k0)) as [->|Hne].
  - rewrite lookup_insert_eq. eauto.
  - by rewrite lookup_insert_ne.
Qed.

Lemma keeps_DiskDict_load_item k : keeps (DiskDict_load_item k).
Proof.
  intros s. unfold DiskDict_load_item.
  destruct (negb _); [by repeat split|].
  destruct (load_funcs (self s) !! k) as [lf|]; [|by repeat split].
  destruct (paths (self s) !! k) as [p|]; [|by repeat split].
  destruct (lf p (fs s)); [apply keeps_data_set | by repeat split].
Qed.

Lemma keeps_DiskDict_save_item k : keeps (DiskDict_save_item k).
Proof.
  apply keeps_self. intros s. unfold DiskDict_save_item.
  destruct (negb _); [done|].
  destruct (save_funcs (self s) !! k) as [[sf|]|]; try done.
  destruct (data (self s) !! k) as [v|]; [|done].
  destruct (paths (self s) !! k) as [p|]; [|done].
  by destruct (sf v p (fs s)).
Qed.

#[export] Hint Resolve keeps_detect_keyerror keeps_data_get keeps_path_get
  keeps_get_present keeps_set_present keeps_data_set keeps_DiskDict_load_item
  keeps_DiskDict_save_item : keeps.

Lemma keeps_DiskDict_get_item k : keeps (DiskDict_get_item k).
Proof.
  unfold DiskDict_get_item. apply keeps_bind; [auto with keeps|].
  intros v. apply keeps_bind; [|auto with keeps].
  apply keeps_if; [|auto with keeps].
  unfold DiskDict_item_present.
  apply keeps_bind; [auto with keeps|]. intros b. auto with keeps.
Qed.

(** The entry deleted first is put back at the end. *)
Lemma keeps_DiskDict_del_item k : keeps (DiskDict_del_item k).
Proof.
  intros s. unfold DiskDict_del_item, bind, data_del, path_get, data_set, modify.
  destruct (data (self s) !! k) as [v|] eqn:Hd; simpl; [|by repeat split].
  destruct (paths (self s) !! k) as [p|]; simpl; [|by repeat split].
  destruct (os_remove (fs s) p) as [[u|e] f']; simpl; [|by repeat split].
  repeat split. intros _ _ k0 Hk0. destruct (decide (k = k0)) as [->|Hne].
  - rewrite lookup_insert_eq. eauto.
  - by rewrite lookup_insert_ne, lookup_delete_ne.
Qed.

Lemma keeps_dispatch {A} (m1 m2 : M dstate A) :
  keeps m1 → keeps m2 →
  keeps (λ s, match cls (self s) with MemoryDict => m1 s | DiskDict => m2 s end).
Proof.
  intros H1 H2 s. specialize (H1 s). specialize (H2 s).
  revert H1 H2. destruct (cls (self s)); intros H1 H2; [exact H1 | exact H2].
Qed.

Lemma keeps_get_item k : keeps (get_item k).
Proof.
  apply keeps_dispatch; [|apply keeps_DiskDict_get_item].
  unfold MemoryDict_get_item. apply keeps_bind; auto with keeps.
Qed.

Lemma keeps_set_item k v : keeps (set_item k v).
Proof.
  apply keeps_dispatch; [apply keeps_data_set|].
  unfold DiskDict_set_item. apply keeps_bind; auto with keeps.
Qed.

Lemma keeps_del_item k : keeps (del_item k).
Proof.
  apply keeps_dispatch; [apply keeps_data_set | apply keeps_DiskDict_del_item].
Qed.

#[export] Hint Resolve keeps_get_item keeps_set_item keeps_del_item : keeps.

Lemma keeps_getitem k : keeps (__getitem__ k).
Proof. unfold __getitem__. auto with keeps. Qed.

Lemma keeps_item_present k : keeps (item_present k).
Proof.
  apply keeps_dispatch.
  - unfold MemoryDict_item_present.
    apply keeps_bind; [apply keeps_getitem | auto with keeps].
  - unfold DiskDict_item_present. apply keeps_bind; auto with keeps.
Qed.

Lemma keeps_setitem k v : keeps (__setitem__ k v).
Proof. unfold __setitem__. auto with keeps. Qed.

Lemma keeps_delitem k : keeps (__delitem__ k).
Proof. unfold __delitem__. auto with keeps. Qed.

#[export] Hint Resolve keeps_getitem keeps_item_present keeps_setitem
  keeps_delitem : keeps.

Lemma keeps_refresh k : keeps (refresh k).
Proof. unfold refresh. auto with keeps. Qed.

Lemma keeps_update_item_metadata : keeps update_item_metadata.
Proof.
  unfold update_item_metadata. apply keeps_bind; [auto with keeps|].
  intros ks. apply keeps_for_each. intros k. apply keeps_refresh.
Qed.

Lemma keeps_collect_present ks : keeps (collect_present ks).
Proof.
  induction ks as [|k ks IH]; simpl; [auto with keeps|].
  apply keeps_bind; [auto with keeps|]. intros v.
  apply keeps_bind; [auto with keeps|]. intros b.
  apply keeps_bind; [exact IH|]. auto with keeps.
Qed.

Lemma keeps_present_items : keeps present_items.
Proof.
  unfold present_items. apply keeps_bind; [apply keeps_update_item_metadata|].
  intros _. apply keeps_bind; [auto with keeps|]. intros ks.
  apply keeps_bind; [apply keeps_collect_present | auto with keeps].
Qed.

Lemma keeps_absent_items : keeps absent_items.
Proof.
  unfold absent_items. apply keeps_bind; [apply keeps_present_items|].
  intros p. auto with keeps.
Qed.

Lemma keeps_run_call c : keeps (run_call c).
Proof.
  destruct c; simpl;
    auto using keeps_present_items, keeps_absent_items with keeps.
Qed.

(** ** The invariant *)

Lemma meta_ok_stable s s' k :
  stable s s' → meta_ok (self s) (heap s) k = true →
  meta_ok (self s') (heap s') k = true.
Proof.
  intros (_ & HM & HH). unfold meta_ok. rewrite HM.
  destruct (metadata (self s) !! k) as [[| | | |l]|]; try done.
  intros [o Ho]%bool_decide_eq_true_1. apply bool_decide_eq_true_2.
  destruct (HH l) as [->|(_ & o1 & o2 & _ & -> & _)]; eauto.
Qed.

Lemma key_ok_step {A} (m : M dstate A) s a k :
  frames m → keeps m → (m s).1 = Ok a →
  key_ok (self s) (heap s) k = true →
  key_ok (self (m s).2) (heap (m s).2) k = true.
Proof.
  intros Hf Hk Hr. specialize (Hf s). destruct (Hk s) as (C & P & L & S & D).
  pose proof Hf as (K & _ & _).
  unfold key_ok, __contains__. rewrite K, C, P, L, S.
  intros [[[Hc Hm]%andb_prop Hd%bool_decide_eq_true_1]%andb_prop Hdisk]%andb_prop.
  rewrite Hc, Hdisk, (meta_ok_stable s _ k Hf Hm). simpl.
  rewrite bool_decide_eq_true_2; [done|]. by apply (D a Hr).
Qed.

(** A call that returns normally leaves every key set up that was. *)
Lemma key_ok_run_call c s a k :
  (run_call c s).1 = Ok a →
  key_ok (self s) (heap s) k = true →
  key_ok (self (run_call c s).2) (heap (run_call c s).2) k = true.
Proof.
  apply key_ok_step; [apply StoreFrame.frames_run_call | apply keeps_run_call].
Qed.

(** ** The constructors establish it *)

Lemma dict_comp_dom {V} (g : string → res V) ks m k :
  dict_comp g ks = Ok m → k ∈ ks → is_Some (m !! k).
Proof.
  revert m. induction ks as [|k0 ks IH]; intros m; simpl.
  - intros _ Hk. by apply elem_of_nil in Hk.
  - destruct (g k0) as [v0|e]; [|done].
    destruct (dict_comp g ks) as [m0|e]; [|done].
    intros [= <-] Hk. destruct (decide (k0 = k)) as [->|Hne].
    + rewrite lookup_insert_eq. eauto.
    + rewrite lookup_insert_ne; [|done]. apply IH; [done|].
      apply elem_of_cons in Hk as [->|Hk]; done.
Qed.

Lemma refresh_meta_ok k s :
  (refresh k s).1 = Ok tt →
  meta_ok (self (refresh k s).2) (heap (refresh k s).2) k = true.
Proof.
  unfold refresh, bind.
  destruct (item_present k s) as [[b|e] s0]; [|done].
  unfold set_present, assign_subscript, meta_ok.
  destruct (metadata (self s0) !! k) as [m|] eqn:Hm; [|done].
  destruct m as [| | | |l]; simpl; try done.
  destruct (heap s0 !! l) as [o|]; simpl; [|done].
  intros _. rewrite Hm, lookup_insert_eq. by apply bool_decide_eq_true_2.
Qed.

Lemma for_each_refresh_meta_ok ks s :
  (for_each ks refresh s).1 = Ok tt →
  ∀ k, k ∈ ks →
       meta_ok (self (for_each ks refresh s).2) (heap (for_each ks refresh s).2) k = true.
Proof.
  revert s. induction ks as [|k0 ks IH]; intros s Hok k Hk.
  - by apply elem_of_nil in Hk.
  - simpl in *. unfold bind in *.
    pose proof (refresh_meta_ok k0 s) as H0.
    destruct (refresh k0 s) as [[[]|e] s1]; simpl in *; [|done].
    apply elem_of_cons in Hk as [->|Hk]; [|by apply IH].
    apply (meta_ok_stable s1); [|by apply H0].
    apply (StoreFrame.frames_for_each ks refresh StoreFrame.frames_refresh s1).
Qed.

Lemma finish_init_ok d h f d' h' :
  finish_init d h f = (Ok d', h') →
  (∀ k, k ∈ keys d → is_Some (data d !! k)) →
  (cls d = DiskDict →
   ∀ k, k ∈ keys d → is_Some (paths d !! k) ∧ is_Some (load_funcs d !! k)
                     ∧ is_Some (save_funcs d !! k)) →
  cls d' = cls d ∧ ∀ k, k ∈ keys d' → key_ok d' h' k = true.
Proof.
  unfold finish_init. intros Hfin Hdata Hdisk.
  pose proof (StoreFrame.frames_update_item_metadata (mkDState d h f)) as (K & _ & _).
  destruct (keeps_update_item_metadata (mkDState d h f)) as (C & P & L & S & D).
  pose proof (for_each_refresh_meta_ok (elements (keys d)) (mkDState d h f)) as Hmeta.
  change (for_each (elements (keys d)) refresh (mkDState d h f))
    with (update_item_metadata (mkDState d h f)) in Hmeta.
  destruct (update_item_metadata (mkDState d h f)) as [[[]|e] s]; [|done].
  injection Hfin as <- <-. simpl in *.
  split; [done|]. intros k Hk. rewrite K in Hk.
  unfold key_ok, __contains__. rewrite K, C, P, L, S.
  rewrite bool_decide_eq_true_2; [|done].
  rewrite Hmeta; [|done|by apply elem_of_elements]. simpl.
  rewrite bool_decide_eq_true_2; [|by apply (D tt eq_refl), Hdata]. simpl.
  destruct (cls d) eqn:Hcls; [done|].
  destruct (Hdisk eq_refl k Hk) as (Hp & Hl & Hs).
  by rewrite !bool_decide_eq_true_2.
Qed.

(** After [MemoryDict(mongo_doc, datatype_schema)] every key is set up. *)
Lemma MemoryDict_init_ok doc schema h f d h' :
  MemoryDict_init doc schema h f = (Ok d, h') →
  cls d = MemoryDict ∧ ∀ k, k ∈ keys d → key_ok d h' k = true.
Proof.
  unfold MemoryDict_init.
  destruct (ModalDict_init MemoryDict doc schema h) as [d0|e] eqn:E0; [|done].
  assert (cls d0 = MemoryDict) as Hc0.
  { unfold ModalDict_init in E0. destruct (dict_comp _ _); [|done].
    by injection E0 as <-. }
  destruct (dict_comp (doc_item_data h doc) (elements (keys d0))) as [dat|e] eqn:Ed;
    [|done].
  intros Hfin. apply finish_init_ok in Hfin as [Hc Hk].
  - split; [by rewrite Hc|done].
  - simpl. intros k Hk. apply (dict_comp_dom _ _ _ _ Ed). by apply elem_of_elements.
  - simpl. by rewrite Hc0.
Qed.

(** After [DiskDict(mongo_doc, datatype_schema)] every key is set up. *)
Lemma DiskDict_init_ok doc schema h f d h' :
  DiskDict_init doc schema h f = (Ok d, h') →
  cls d = DiskDict ∧ ∀ k, k ∈ keys d → key_ok d h' k = true.
Proof.
  unfold DiskDict_init.
  destruct (ModalDict_init DiskDict doc schema h) as [d0|e] eqn:E0; [|done].
  destruct (subscript h doc "root") as [root|e]; [|done].
  destruct (dict_comp (schema_entry schema s_load_func "load_func") _) as [lf|e] eqn:El;
    [|done].
  destruct (dict_comp (schema_entry schema s_save_func "save_func") _) as [sf|e] eqn:Es;
    [|done].
  destruct (dict_comp (item_path schema root) _) as [ps|e] eqn:Ep; [|done].
  intros Hfin. apply finish_init_ok in Hfin as [Hc Hk].
  - split; [by rewrite Hc|done].
  - simpl. intros k Hk. exists VNone. by apply lookup_gset_to_gmap_Some.
  - simpl. intros _ k Hk. apply elem_of_elements in Hk.
    split; [by apply (dict_comp_dom _ _ _ _ Ep)|].
    split; [by apply (dict_comp_dom _ _ _ _ El) | by apply (dict_comp_dom _ _ _ _ Es)].
Qed.

End StoreInvariant.

(* ===================================================================== *)
(** * More on the item stores                                             *)
(* ===================================================================== *)

Module StoreExtras.

Import ModalDicts StoreProps.

Lemma meta_ok_inv d h k :
  meta_ok d h k = true → ∃ l o, metadata d !! k = Some (VRef l) ∧ h !! l = Some o.
Proof.
  unfold meta_ok. destruct (metadata d !! k) as [[| | | |l]|]; try done.
  intros [o Ho]%bool_decide_eq_true_1. eauto.
Qed.

(** X1: a key outside the declared keys is rejected by [get], [set] and
    [delete] with the error of [detect_keyerror], before anything is
    read or written: the store, the heap and the file system are as
    before. *)
Theorem unknown_key_rejected (s : dstate) (k : string) (v : pyval) :
  k ∉ keys (self s) →
  __getitem__ k s = (Raise (KeyError ("No such item: " +:+ k)), s)
  ∧ __setitem__ k v s = (Raise (KeyError ("No such item: " +:+ k)), s)
  ∧ __delitem__ k s = (Raise (KeyError ("No such item: " +:+ k)), s).
Proof.
  intros Hk.
  assert (Hd : detect_keyerror k s = (Raise (KeyError ("No such item: " +:+ k)), s)).
  { unfold detect_keyerror, __contains__. by rewrite bool_decide_eq_false_2. }
  unfold __getitem__, __setitem__, __delitem__, bind. by rewrite Hd.
Qed.

Lemma unknown_key_rejected_witness :
  __setitem__ "thumbnail" (VStr "x")
    (mkDState Fixture.name_store Fixture.heap_name Fixture.fs_empty)
  = (Raise (KeyError "No such item: thumbnail"),
     mkDState Fixture.name_store Fixture.heap_name Fixture.fs_empty).
Proof.
  refine (proj1 (proj2 (unknown_key_rejected
            (mkDState Fixture.name_store Fixture.heap_name Fixture.fs_empty)
            "thumbnail" (VStr "x") _))).
  simpl. intros [=]%elem_of_singleton.
Defined.

(** [DiskDict.__setitem__], by cases on the save function: the flag and
    the cache are written before the save function is looked at. *)
Lemma disk_setitem d h f k v p l o :
  cls d = DiskDict → __contains__ d k = true →
  metadata d !! k = Some (VRef l) → h !! l = Some o →
  paths d !! k = Some p →
  __setitem__ k v (mkDState d h f)
  = let h' := <[l := <["present" := VBool true]> o]> h in
    let d' := with_data (<[k := v]> (data d)) d in
    match save_funcs d !! k with
    | None => (Raise (KeyError k), mkDState d' h' f)
    | Some None => (Raise AssertionError, mkDState d' h' f)
    | Some (Some sf) => ((sf v p f).1, mkDState d' h' (sf v p f).2)
    end.
Proof.
  intros Hcls Hc Hm Hl Hp. unfold __setitem__, bind.
  rewrite detect_keyerror_ok; [|done].
  rewrite (set_present_ok k _ d h f l o); auto.
  unfold set_item. simpl. rewrite Hcls.
  unfold DiskDict_set_item, bind, data_set, modify, with_self. simpl.
  pose proof Hc as Hc'. unfold __contains__ in Hc'.
  unfold DiskDict_save_item, __contains__. simpl. rewrite Hc'. simpl.
  destruct (save_funcs d !! k) as [[sf|]|]; try done.
  rewrite lookup_insert_eq, Hp. by destruct (sf v p f).
Qed.

Lemma disk_getitem_cached d h f k v :
  cls d = DiskDict → __contains__ d k = true →
  data d !! k = Some v → v ≠ VNone →
  __getitem__ k (mkDState d h f) = (Ok v, mkDState d h f).
Proof.
  intros Hcls Hc Hd Hv. unfold __getitem__, bind. rewrite detect_keyerror_ok; [|done].
  unfold get_item. simpl. rewrite Hcls.
  unfold DiskDict_get_item, bind, data_get. simpl. rewrite Hd.
  destruct v; try done; simpl; unfold ret; by rewrite Hd.
Qed.

(** X2: in a [DiskDict], when the save function of a declared key [k]
    succeeds, [set(k, v)] leaves the file system as the save function left
    it and, for [v] other than [None], [get(k)] on the same store returns
    [v] from the cache.  The cache need not have had an entry for [k]. *)
Theorem disk_set_then_get (d : ModalDict) (h : gmap loc (gmap string pyval))
    (f f' : gmap string fnode) (k p : string) (v : pyval) (sf : save_fn) :
  cls d = DiskDict → __contains__ d k = true → meta_ok d h k = true →
  paths d !! k = Some p → save_funcs d !! k = Some (Some sf) →
  sf v p f = (Ok tt, f') → v ≠ VNone →
  ∃ s', __setitem__ k v (mkDState d h f) = (Ok tt, s')
        ∧ fs s' = f'
        ∧ __getitem__ k s' = (Ok v, s').
Proof.
  intros Hcls Hc (l & o & Hm & Hl)%meta_ok_inv Hp Hs Hsf Hv.
  eexists. split.
  { rewrite (disk_setitem d h f k v p l o); auto. simpl.
    unfold save_fn in *. rewrite Hs, Hsf. reflexivity. }
  split; [done|].
  apply disk_getitem_cached; auto. simpl. by rewrite lookup_insert_eq.
Qed.

Lemma disk_set_then_get_witness :
  ∃ s', __setitem__ "thumbnail" (VStr "PNG")
          (mkDState Fixture.thumb_store Fixture.heap_thumb Fixture.fs_empty) = (Ok tt, s')
        ∧ fs s' = {[ Fixture.thumb_path := File "PNG" ]}
        ∧ __getitem__ "thumbnail" s' = (Ok (VStr "PNG"), s').
Proof.
  apply (disk_set_then_get Fixture.thumb_store Fixture.heap_thumb Fixture.fs_empty _
           "thumbnail" Fixture.thumb_path (VStr "PNG") Fixture.write_text);
    try reflexivity.
  discriminate.
Defined.

(** X3: in a [DiskDict], when the save function of a declared key raises,
    [set(k, v)] raises the same error, but the cache already holds [v] and
    the flag of [k] in the document already says present; for [v] other
    than [None] the next [get(k)] returns the value that was not saved.
    (For [None], [get] looks for the file again.) *)
Theorem disk_set_failed_save (d : ModalDict) (h : gmap loc (gmap string pyval))
    (f f' : gmap string fnode) (k p : string) (v : pyval) (sf : save_fn) (e : exn) :
  cls d = DiskDict → __contains__ d k = true → meta_ok d h k = true →
  paths d !! k = Some p → save_funcs d !! k = Some (Some sf) →
  sf v p f = (Raise e, f') →
  ∃ s', __setitem__ k v (mkDState d h f) = (Raise e, s')
        ∧ fs s' = f'
        ∧ data (self s') !! k = Some v
        ∧ get_present k s' = (Ok (VBool true), s')
        ∧ (v ≠ VNone → __getitem__ k s' = (Ok v, s')).
Proof.
  intros Hcls Hc (l & o & Hm & Hl)%meta_ok_inv Hp Hs Hsf.
  eexists. split.
  { rewrite (disk_setitem d h f k v p l o); auto. simpl.
    unfold save_fn in *. rewrite Hs, Hsf. reflexivity. }
  split; [done|].
  split; [simpl; by rewrite lookup_insert_eq|].
  split.
  { unfold get_present, subscript. simpl. by rewrite Hm, !lookup_insert_eq. }
  intros Hv. apply disk_getitem_cached; auto. simpl. by rewrite lookup_insert_eq.
Qed.

Lemma disk_set_failed_save_witness :
  ∃ s', __setitem__ "thumbnail" (VInt 7)
          (mkDState Fixture.thumb_store Fixture.heap_thumb Fixture.fs_empty)
        = (Raise (TypeError "expected a string"), s')
        ∧ data (self s') !! "thumbnail" = Some (VInt 7)
        ∧ get_present "thumbnail" s' = (Ok (VBool true), s')
        ∧ __getitem__ "thumbnail" s' = (Ok (VInt 7), s').
Proof.
  destruct (disk_set_failed_save Fixture.thumb_store Fixture.heap_thumb Fixture.fs_empty
              Fixture.fs_empty "thumbnail" Fixture.thumb_path (VInt 7) Fixture.write_text
              (TypeError "expected a string") eq_refl eq_refl eq_refl eq_refl eq_refl eq_refl)
    as (s' & H1 & _ & H3 & H4 & H5).
  exists s'. split; [exact H1|]. split; [exact H3|]. split; [exact H4|].
  apply H5. discriminate.
Defined.

(** X4: a declared key of a [DiskDict] whose save function is [None] is
    read-only on disk only: [set(k, v)] fails the assertion of
    [save_item] and writes no file, but the cache holds [v] and the flag
    says present. *)
Theorem disk_set_read_only (d : ModalDict) (h : gmap loc (gmap string pyval))
    (f : gmap string fnode) (k p : string) (v : pyval) :
  cls d = DiskDict → __contains__ d k = true → meta_ok d h k = true →
  paths d !! k = Some p → save_funcs d !! k = Some None →
  ∃ s', __setitem__ k v (mkDState d h f) = (Raise AssertionError, s')
        ∧ fs s' = f
        ∧ data (self s') !! k = Some v
        ∧ get_present k s' = (Ok (VBool true), s').
Proof.
  intros Hcls Hc (l & o & Hm & Hl)%meta_ok_inv Hp Hs.
  eexists. split.
  { rewrite (disk_setitem d h f k v p l o); auto. simpl.
    unfold save_fn in *. rewrite Hs. reflexivity. }
  split; [done|].
  split; [simpl; by rewrite lookup_insert_eq|].
  unfold get_present, subscript. simpl. by rewrite Hm, !lookup_insert_eq.
Qed.

Lemma disk_set_read_only_witness :
  ∃ s', __setitem__ "thumbnail" (VStr "PNG")
          (mkDState Fixture.thumb_store_ro Fixture.heap_thumb Fixture.fs_empty)
        = (Raise AssertionError, s')
        ∧ fs s' = Fixture.fs_empty
        ∧ data (self s') !! "thumbnail" = Some (VStr "PNG")
        ∧ get_present "thumbnail" s' = (Ok (VBool true), s').
Proof.
  apply (disk_set_read_only Fixture.thumb_store_ro Fixture.heap_thumb Fixture.fs_empty
           "thumbnail" Fixture.thumb_path (VStr "PNG")); reflexivity.
Defined.

(** X5: in a [DiskDict] presence is read from the file system and the
    value from the cache: for a declared key with a cached value and no
    file, [item_present(k)] is false while [get(k)] still returns the
    cached value. *)
Theorem disk_stale_cache (d : ModalDict) (h : gmap loc (gmap string pyval))
    (f : gmap string fnode) (k p : string) (v : pyval) :
  cls d = DiskDict → __contains__ d k = true →
  paths d !! k = Some p → data d !! k = Some v → v ≠ VNone → f !! p = None →
  item_present k (mkDState d h f) = (Ok false, mkDState d h f)
  ∧ __getitem__ k (mkDState d h f) = (Ok v, mkDState d h f).
Proof.
  intros Hcls Hc Hp Hd Hv Hf. split.
  - rewrite (disk_item_present d h f k p); auto.
    unfold os_path_exists. by rewrite Hf.
  - by apply disk_getitem_cached.
Qed.

Lemma disk_stale_cache_witness :
  item_present "thumbnail"
    (mkDState Fixture.thumb_store_cached Fixture.heap_thumb Fixture.fs_empty)
  = (Ok false, mkDState Fixture.thumb_store_cached Fixture.heap_thumb Fixture.fs_empty)
  ∧ __getitem__ "thumbnail"
      (mkDState Fixture.thumb_store_cached Fixture.heap_thumb Fixture.fs_empty)
    = (Ok (VStr "JFIF"),
       mkDState Fixture.thumb_store_cached Fixture.heap_thumb Fixture.fs_empty).
Proof.
  apply (disk_stale_cache Fixture.thumb_store_cached Fixture.heap_thumb Fixture.fs_empty
           "thumbnail" Fixture.thumb_path (VStr "JFIF")); try reflexivity.
  discriminate.
Defined.

(** X6: in a [DiskDict], when nothing is cached for a declared key, the
    path exists and the load function raises, [get(k)] raises the same
    error and leaves the store as it was, so that the next [get(k)] calls
    the load function again. *)
Theorem disk_get_failed_load (d : ModalDict) (h : gmap loc (gmap string pyval))
    (f : gmap string fnode) (k p : string) (lf : load_fn) (e : exn) :
  cls d = DiskDict → key_ok d h k = true →
  paths d !! k = Some p → load_funcs d !! k = Some lf →
  data d !! k = Some VNone → os_path_exists f p = true → lf p f = Raise e →
  __getitem__ k (mkDState d h f) = (Raise e, mkDState d h f).
Proof.
  intros Hcls (Hc & _ & _ & _)%key_ok_inv Hp Hlf Hd He Hr.
  rewrite (disk_getitem d h f k p lf VNone); auto. simpl. by rewrite He, Hr.
Qed.

Lemma disk_get_failed_load_witness :
  __getitem__ "thumbnail" (mkDState Fixture.thumb_store Fixture.heap_thumb Fixture.fs_dir)
  = (Raise (OSError "cannot open"),
     mkDState Fixture.thumb_store Fixture.heap_thumb Fixture.fs_dir).
Proof.
  apply (disk_get_failed_load Fixture.thumb_store Fixture.heap_thumb Fixture.fs_dir
           "thumbnail" Fixture.thumb_path Fixture.read_text); reflexivity.
Defined.



End StoreExtras.

(* ===================================================================== *)
(** * Presence: the queries and the flags of the document                 *)
(* ===================================================================== *)

Module PresenceExtras.

Import ModalDicts StoreProps.

Lemma NoDup_fmap_inj_on {A B} (g : A → B) (l : list A) x y :
  NoDup (g <$> l) → x ∈ l → y ∈ l → g x = g y → x = y.
Proof.
  induction l as [|a l IH]; simpl; intros Hnd Hx Hy Hg.
  - by apply elem_of_nil in Hx.
  - apply NoDup_cons in Hnd as [Ha Hnd].
    apply elem_of_cons in Hx as [->|Hx]; apply elem_of_cons in Hy as [->|Hy]; auto.
    + exfalso. apply Ha. rewrite Hg. by apply list_elem_of_fmap_2.
    + exfalso. apply Ha. rewrite <- Hg. by apply list_elem_of_fmap_2.
Qed.

Lemma meta_distinct_inj d k1 k2 v :
  meta_distinct d = true →
  metadata d !! k1 = Some v → metadata d !! k2 = Some v → k1 = k2.
Proof.
  intros Hnd%bool_decide_eq_true_1 H1 H2.
  apply elem_of_map_to_list in H1, H2.
  by pose proof (NoDup_fmap_inj_on snd _ (k1, v) (k2, v) Hnd H1 H2 eq_refl) as [= ->].
Qed.

Lemma store_ok_key_ok d h k :
  store_ok d h = true → k ∈ keys d → key_ok d h k = true.
Proof.
  unfold store_ok. rewrite forallb_forall. intros H Hk. apply H.
  by apply list_elem_of_In, elem_of_elements.
Qed.

(** For a key that is set up, [item_present] returns [present_now] and
    changes nothing. *)
Lemma item_present_now s k :
  key_ok (self s) (heap s) k = true →
  item_present k s = (Ok (present_now s k), s).
Proof.
  destruct s as [d h f]. simpl.
  intros (Hc & _ & (v & Hd) & Hdisk)%key_ok_inv. unfold present_now. simpl.
  destruct (cls d) eqn:Hcls.
  - rewrite Hd. by apply memory_item_present.
  - destruct (Hdisk eq_refl) as ((p & Hp) & _). rewrite Hp.
    by apply disk_item_present.
Qed.

(** One round of the loop writes the flag of the key. *)
Lemma refresh_spec s k :
  key_ok (self s) (heap s) k = true →
  ∃ l o, metadata (self s) !! k = Some (VRef l) ∧ heap s !! l = Some o
         ∧ refresh k s
           = (Ok tt, with_heap (<[l := <["present" := VBool (present_now s k)]> o]> (heap s)) s).
Proof.
  intros Hok. pose proof (item_present_now s k Hok) as Hip.
  apply key_ok_inv in Hok as (_ & (l & o & Hm & Hl) & _).
  exists l, o. repeat split; auto.
  unfold refresh, bind. rewrite Hip.
  unfold set_present, assign_subscript. by rewrite Hm, Hl.
Qed.

(** The loop of [update_item_metadata]: it succeeds, writes the heap
    only, leaves in the metadata of every key it visits what
    [item_present] finds, and leaves other objects alone. *)
Lemma update_loop ks s :
  NoDup ks → meta_distinct (self s) = true →
  (∀ k, k ∈ ks → key_ok (self s) (heap s) k = true) →
  ∃ h', for_each ks refresh s = (Ok tt, with_heap h' s)
        ∧ (∀ k, k ∈ ks →
             ∃ l o, metadata (self s) !! k = Some (VRef l) ∧ h' !! l = Some o
                    ∧ o !! "present" = Some (VBool (present_now s k)))
        ∧ (∀ l, (∀ k, k ∈ ks → metadata (self s) !! k ≠ Some (VRef l)) →
                h' !! l = heap s !! l).
Proof.
  revert s. induction ks as [|k0 ks IH]; intros s Hnd Hinj Hok.
  - exists (heap s). split; [by destruct s|]. split; [|done].
    intros k Hk. by apply elem_of_nil in Hk.
  - apply NoDup_cons in Hnd as [Hk0 Hnd].
    destruct (refresh_spec s k0) as (l0 & o0 & Hm0 & Hl0 & Hr);
      [apply Hok, list_elem_of_here|].
    set (h1 := <[l0 := <["present" := VBool (present_now s k0)]> o0]> (heap s)) in *.
    destruct (IH (with_heap h1 s) Hnd Hinj) as (h' & Hloop & Hflags & Hrest).
    { intros k Hk.
      pose proof (StoreInvariant.key_ok_step (refresh k0) s tt k
                    (StoreFrame.frames_refresh k0) (StoreInvariant.keeps_refresh k0)) as Hstep.
      rewrite Hr in Hstep. apply Hstep; [done|]. apply Hok. by apply elem_of_cons; right. }
    exists h'. split; [|split].
    + simpl. unfold bind. rewrite Hr. exact Hloop.
    + intros k [->|Hk]%elem_of_cons.
      * exists l0, (<["present" := VBool (present_now s k0)]> o0).
        split; [done|]. split; [|by rewrite lookup_insert_eq].
        rewrite Hrest; [by apply lookup_insert_eq|].
        intros k Hk Hmk. simpl in Hmk.
        assert (k = k0) as -> by (by apply (meta_distinct_inj (self s) k k0 (VRef l0))).
        done.
      * by apply Hflags.
    + intros l Hl. rewrite Hrest.
      * simpl. apply lookup_insert_ne. intros <-. by apply (Hl k0), Hm0; apply list_elem_of_here.
      * intros k Hk. apply Hl. by apply elem_of_cons; right.
Qed.

(** The comprehension of [present_items] reads the flags. *)
Lemma collect_present_flags (P : string → bool) ks s :
  (∀ k, k ∈ ks →
     ∃ l o, metadata (self s) !! k = Some (VRef l) ∧ heap s !! l = Some o
            ∧ o !! "present" = Some (VBool (P k))) →
  collect_present ks s = (Ok (filter (λ k, P k = true) ks), s).
Proof.
  induction ks as [|k ks IH]; intros H; [done|].
  destruct (H k) as (l & o & Hm & Hl & Hp); [apply list_elem_of_here|].
  simpl. unfold bind, get_present, gets, ret, subscript.
  rewrite Hm, Hl, Hp. simpl. rewrite IH.
  - rewrite filter_cons. destruct (P k); case_decide; simpl; congruence.
  - intros k' Hk'. apply H. by apply elem_of_cons; right.
Qed.

Lemma present_items_spec s :
  store_ok (self s) (heap s) = true → meta_distinct (self s) = true →
  ∃ h', update_item_metadata s = (Ok tt, with_heap h' s)
        ∧ present_items s
          = (Ok (list_to_set (filter (λ k, present_now s k = true)
                                (elements (keys (self s))))), with_heap h' s)
        ∧ (∀ k, k ∈ keys (self s) →
             ∃ l o, metadata (self s) !! k = Some (VRef l) ∧ h' !! l = Some o
                    ∧ o !! "present" = Some (VBool (present_now s k))).
Proof.
  intros Hok Hinj.
  destruct (update_loop (elements (keys (self s))) s) as (h' & Hloop & Hflags & _);
    [apply NoDup_elements | done | |].
  { intros k Hk. apply store_ok_key_ok; [done|]. by apply elem_of_elements. }
  exists h'. split; [exact Hloop|]. split.
  - rewrite MemoryBlind.present_items_unfold, Hloop. simpl.
    by rewrite (collect_present_flags (present_now s)).
  - intros k Hk. apply Hflags. by apply elem_of_elements.
Qed.

(** X8: on a store whose keys are all set up and have separate metadata,
    [present_items()] returns exactly the declared keys for which
    [item_present] is true, [absent_items()] exactly those for which it is
    false, and neither changes the store or the file system. *)
Theorem present_items_exact (s : dstate) :
  store_ok (self s) (heap s) = true → meta_distinct (self s) = true →
  ∃ ps qs s',
    present_items s = (Ok ps, s') ∧ absent_items s = (Ok qs, s')
    ∧ self s' = self s ∧ fs s' = fs s
    ∧ (∀ k, k ∈ ps ↔ k ∈ keys (self s) ∧ item_present k s = (Ok true, s))
    ∧ (∀ k, k ∈ qs ↔ k ∈ keys (self s) ∧ item_present k s = (Ok false, s)).
Proof.
  intros Hok Hinj.
  destruct (present_items_spec s Hok Hinj) as (h' & _ & Hp & _).
  eexists _, _, (with_heap h' s). split; [exact Hp|].
  split; [unfold absent_items, bind, gets, ret; rewrite Hp; reflexivity|].
  split; [done|]. split; [done|].
  assert (Hin : ∀ k b, k ∈ keys (self s) →
            (present_now s k = b ↔ item_present k s = (Ok b, s))).
  { intros k b Hk. rewrite (item_present_now s k); [|by apply store_ok_key_ok].
    split; [by intros -> | by intros [= ->]]. }
  split; intros k.
  - rewrite elem_of_list_to_set, list_elem_of_filter, elem_of_elements.
    split.
    + intros [H1 H2]. split; [done|]. by apply (Hin k true).
    + intros [H1 H2]. split; [|done]. by apply (Hin k true).
  - simpl. rewrite elem_of_difference, elem_of_list_to_set, list_elem_of_filter,
      elem_of_elements.
    split.
    + intros [Hk Hnot]. split; [done|]. apply (Hin k false Hk).
      destruct (present_now s k); [|done]. by destruct Hnot.
    + intros [Hk Hf]. split; [done|]. apply (Hin k false Hk) in Hf.
      intros [Ht _]. congruence.
Qed.

Lemma present_items_exact_witness :
  ∃ ps qs s',
    present_items (mkDState Fixture.thumb_store Fixture.heap_thumb Fixture.fs_empty)
    = (Ok ps, s')
    ∧ absent_items (mkDState Fixture.thumb_store Fixture.heap_thumb Fixture.fs_empty)
      = (Ok qs, s')
    ∧ ("thumbnail" ∉ ps) ∧ ("thumbnail" ∈ qs).
Proof.
  destruct (present_items_exact
              (mkDState Fixture.thumb_store Fixture.heap_thumb Fixture.fs_empty)
              eq_refl eq_refl) as (ps & qs & s' & Hp & Hq & _ & _ & Hps & Hqs).
  exists ps, qs, s'. split; [done|]. split; [done|]. split.
  - intros Hin. apply (proj1 (Hps "thumbnail")) in Hin as [_ H].
    vm_compute in H. discriminate.
  - apply (proj2 (Hqs "thumbnail")). split; [vm_compute|]; reflexivity.
Defined.

(** X9: on such a store [update_item_metadata()] succeeds and leaves in
    the document, for every declared key, the flag ['present'] that
    [item_present] finds; the store and the file system are as before. *)
Theorem update_item_metadata_syncs (s : dstate) :
  store_ok (self s) (heap s) = true → meta_distinct (self s) = true →
  ∃ s', update_item_metadata s = (Ok tt, s')
        ∧ self s' = self s ∧ fs s' = fs s
        ∧ ∀ k, k ∈ keys (self s) →
               ∃ b, item_present k s = (Ok b, s)
                    ∧ get_present k s' = (Ok (VBool b), s').
Proof.
  intros Hok Hinj.
  destruct (present_items_spec s Hok Hinj) as (h' & Hu & _ & Hflags).
  exists (with_heap h' s). split; [done|]. split; [done|]. split; [done|].
  intros k Hk. exists (present_now s k).
  split; [by apply item_present_now, store_ok_key_ok|].
  destruct (Hflags k Hk) as (l & o & Hm & Hl & Hp).
  unfold get_present, subscript. simpl. by rewrite Hm, Hl, Hp.
Qed.

Lemma update_item_metadata_syncs_witness :
  ∃ s', update_item_metadata
          (mkDState Fixture.thumb_store Fixture.heap_thumb Fixture.fs_empty) = (Ok tt, s')
        ∧ get_present "thumbnail" s' = (Ok (VBool false), s').
Proof.
  destruct (update_item_metadata_syncs
              (mkDState Fixture.thumb_store Fixture.heap_thumb Fixture.fs_empty)
              eq_refl eq_refl) as (s' & Hu & _ & _ & Hflags).
  exists s'. split; [done|].
  destruct (Hflags "thumbnail") as (b & Hb & Hg); [vm_compute; reflexivity|].
  vm_compute in Hb. injection Hb as <-. exact Hg.
Defined.

(** X10: the flag that [set] writes is not what [item_present] finds:
    after [set(k, None)] on a [MemoryDict] the document says the item is
    present while [item_present(k)] says it is not. *)
Theorem memory_set_none_flag (d : ModalDict) (h : gmap loc (gmap string pyval))
    (f : gmap string fnode) (k : string) :
  cls d = MemoryDict → key_ok d h k = true →
  ∃ s', __setitem__ k VNone (mkDState d h f) = (Ok tt, s')
        ∧ get_present k s' = (Ok (VBool true), s')
        ∧ item_present k s' = (Ok false, s').
Proof.
  intros Hcls (Hc & (l & o & Hm & Hl) & _ & _)%key_ok_inv.
  eexists. split; [by apply memory_setitem with (l := l) (o := o)|].
  split.
  - unfold get_present, subscript. simpl. by rewrite Hm, !lookup_insert_eq.
  - rewrite (memory_item_present _ _ _ k VNone); auto.
    simpl. by rewrite lookup_insert_eq.
Qed.

Lemma memory_set_none_flag_witness :
  ∃ s', __setitem__ "name" VNone
          (mkDState Fixture.name_store Fixture.heap_name Fixture.fs_empty) = (Ok tt, s')
        ∧ get_present "name" s' = (Ok (VBool true), s')
        ∧ item_present "name" s' = (Ok false, s').
Proof.
  apply (memory_set_none_flag Fixture.name_store Fixture.heap_name Fixture.fs_empty "name");
    reflexivity.
Defined.

End PresenceExtras.

(* ===================================================================== *)
(** * The constructors of the stores                                      *)
(* ===================================================================== *)

Module InitExtras.

Import ModalDicts StoreProps.

Lemma item_present_state k s : (item_present k s).2 = s.
Proof.
  destruct (cls (self s)) eqn:Hcls.
  - by apply MemoryBlind.memory_item_present_state.
  - unfold item_present. rewrite Hcls.
    unfold DiskDict_item_present, bind, path_get, gets.
    by destruct (paths (self s) !! k).
Qed.

Lemma refresh_self k s :
  self (refresh k s).2 = self s ∧ fs (refresh k s).2 = fs s.
Proof.
  unfold refresh, bind. pose proof (item_present_state k s) as H.
  destruct (item_present k s) as [[b|e] s0]; simpl in H; subst s0; [|done].
  unfold set_present. destruct (metadata (self s) !! k) as [m|]; [|done].
  by destruct (assign_subscript (heap s) m "present" (VBool b)).
Qed.

Lemma for_each_refresh_self ks s :
  self (for_each ks refresh s).2 = self s ∧ fs (for_each ks refresh s).2 = fs s.
Proof.
  revert s. induction ks as [|k ks IH]; intros s; [done|].
  simpl. unfold bind. destruct (refresh_self k s) as [H1 H2].
  destruct (refresh k s) as [[[]|e] s1]; simpl in *; [|done].
  destruct (IH s1) as [H3 H4]. split; congruence.
Qed.

(** [update_item_metadata] at the end of a constructor leaves the new
    instance as it was built. *)
Lemma finish_init_self d h f d' h' :
  finish_init d h f = (Ok d', h') → d' = d.
Proof.
  assert (Hu : update_item_metadata (mkDState d h f)
               = for_each (elements (keys d)) refresh (mkDState d h f)) by reflexivity.
  unfold finish_init. rewrite Hu.
  destruct (for_each_refresh_self (elements (keys d)) (mkDState d h f)) as [H _].
  destruct (for_each (elements (keys d)) refresh (mkDState d h f)) as [[[]|e] s];
    [|done].
  simpl in H. by intros [= <- _].
Qed.

Lemma ModalDict_init_inv c doc schema h d :
  ModalDict_init c doc schema h = Ok d →
  cls d = c ∧ keys d = schema_keys c schema
  ∧ dict_comp (doc_item h doc) (elements (keys d)) = Ok (metadata d).
Proof.
  unfold ModalDict_init, schema_keys.
  destruct (dict_comp (doc_item h doc) _) as [md|e] eqn:E; [|done].
  by intros [= <-].
Qed.

Lemma MemoryDict_init_inv doc schema h f d h' :
  MemoryDict_init doc schema h f = (Ok d, h') →
  cls d = MemoryDict ∧ keys d = schema_keys MemoryDict schema
  ∧ dict_comp (doc_item_data h doc) (elements (keys d)) = Ok (data d).
Proof.
  unfold MemoryDict_init.
  destruct (ModalDict_init MemoryDict doc schema h) as [d0|e] eqn:E0; [|done].
  apply ModalDict_init_inv in E0 as (Hc & Hk & _).
  destruct (dict_comp (doc_item_data h doc) (elements (keys d0))) as [dat|e] eqn:Ed;
    [|done].
  intros ->%finish_init_self. by simpl.
Qed.

Lemma DiskDict_init_inv doc schema h f d h' :
  DiskDict_init doc schema h f = (Ok d, h') →
  cls d = DiskDict ∧ keys d = schema_keys DiskDict schema
  ∧ data d = gset_to_gmap VNone (keys d)
  ∧ dict_comp (schema_entry schema s_load_func "load_func") (elements (keys d))
    = Ok (load_funcs d)
  ∧ ∃ root, subscript h doc "root" = Ok root
            ∧ dict_comp (item_path schema root) (elements (keys d)) = Ok (paths d).
Proof.
  unfold DiskDict_init.
  destruct (ModalDict_init DiskDict doc schema h) as [d0|e] eqn:E0; [|done].
  apply ModalDict_init_inv in E0 as (Hc & Hk & _).
  destruct (subscript h doc "root") as [root|e]; [|done].
  destruct (dict_comp (schema_entry schema s_load_func "load_func") _) as [lf|e] eqn:El;
    [|done].
  destruct (dict_comp (schema_entry schema s_save_func "save_func") _) as [sf|e] eqn:Es;
    [|done].
  destruct (dict_comp (item_path schema root) _) as [ps|e] eqn:Ep; [|done].
  intros ->%finish_init_self. simpl. repeat split; auto. by exists root.
Qed.

(** X11: a new [MemoryDict] holds, for each of its keys, the value
    [mongo_doc['items'][k]['data']] of the document it was built from:
    [get(k)] returns it, whatever the file system. *)
Theorem memory_init_copies_data (doc : pyval) (schema : gmap string schema_item)
    (h h' : gmap loc (gmap string pyval)) (f f' : gmap string fnode)
    (d : ModalDict) (k : string) :
  MemoryDict_init doc schema h f = (Ok d, h') → k ∈ keys d →
  ∃ v, doc_item_data h doc k = Ok v
       ∧ __getitem__ k (mkDState d h' f') = (Ok v, mkDState d h' f').
Proof.
  intros Hinit Hk. apply MemoryDict_init_inv in Hinit as (Hc & _ & Hd).
  destruct (StoreInvariant.dict_comp_dom _ _ _ k Hd) as [v Hv];
    [by apply elem_of_elements|].
  exists v. split; [by apply (DocumentFrame.dict_comp_lookup _ _ _ _ _ Hd)|].
  apply memory_getitem; auto. unfold __contains__. by apply bool_decide_eq_true_2.
Qed.

Lemma memory_init_copies_data_witness :
  ∃ v, doc_item_data Fixture.heap0 Fixture.doc "name" = Ok v
       ∧ __getitem__ "name" (mkDState Fixture.name_store Fixture.heap_name Fixture.fs_thumb)
         = (Ok v, mkDState Fixture.name_store Fixture.heap_name Fixture.fs_thumb).
Proof.
  apply (memory_init_copies_data Fixture.doc Fixture.schema Fixture.heap0
           Fixture.heap_name Fixture.fs_empty Fixture.fs_thumb Fixture.name_store "name").
  - vm_compute. reflexivity.
  - vm_compute. reflexivity.
Defined.

Lemma elem_of_schema_keys c schema k :
  k ∈ schema_keys c schema ↔ ∃ it, schema !! k = Some it ∧ s_mode it = mode c.
Proof.
  unfold schema_keys. rewrite elem_of_dom. split.
  - intros [it [H1 H2]%map_lookup_filter_Some]. eauto.
  - intros (it & H1 & H2). exists it. by apply map_lookup_filter_Some.
Qed.

(** X12: the two stores built over one schema divide its items by mode:
    the keys of the [MemoryDict] are the items declared with mode
    ['memory'], those of the [DiskDict] the items declared with mode
    ['disk'], and no key belongs to both. *)
Theorem stores_divide_schema (doc1 doc2 : pyval) (schema : gmap string schema_item)
    (h1 h1' h2 h2' : gmap loc (gmap string pyval)) (f1 f2 : gmap string fnode)
    (dm dd : ModalDict) :
  MemoryDict_init doc1 schema h1 f1 = (Ok dm, h1') →
  DiskDict_init doc2 schema h2 f2 = (Ok dd, h2') →
  (∀ k, k ∈ keys dm ↔ ∃ it, schema !! k = Some it ∧ s_mode it = "memory")
  ∧ (∀ k, k ∈ keys dd ↔ ∃ it, schema !! k = Some it ∧ s_mode it = "disk")
  ∧ keys dm ## keys dd.
Proof.
  intros (_ & Hm & _)%MemoryDict_init_inv (_ & Hd & _)%DiskDict_init_inv.
  rewrite Hm, Hd. split; [|split].
  - intros k. apply (elem_of_schema_keys MemoryDict).
  - intros k. apply (elem_of_schema_keys DiskDict).
  - intros k (it1 & H1 & M1)%elem_of_schema_keys (it2 & H2 & M2)%elem_of_schema_keys.
    simpl in *. congruence.
Qed.

Lemma stores_divide_schema_witness :
  keys Fixture.name_store ## keys Fixture.thumb_store.
Proof.
  refine (proj2 (proj2 (stores_divide_schema Fixture.doc Fixture.doc Fixture.schema
            Fixture.heap0 Fixture.heap_name Fixture.heap0 Fixture.heap_thumb
            Fixture.fs_empty Fixture.fs_thumb Fixture.name_store Fixture.thumb_store _ _)));
    vm_compute; reflexivity.
Defined.

Lemma only_present_subscript (locs : loc → Prop) h h' v fld :
  only_present locs h h' → fld ≠ "present" →
  subscript h' v fld = subscript h v fld.
Proof.
  intros H Hfld. destruct v as [| | | |l]; try done. simpl.
  destruct (H l) as [->|(_ & o & o' & -> & -> & Hd)]; [done|].
  apply (f_equal (λ m, m !! fld)) in Hd.
  rewrite !lookup_delete_ne in Hd by done. by rewrite Hd.
Qed.

(** X13: what a [DiskDict] has saved, a new [DiskDict] over the same
    document and schema reads back: after a [set(k, v)] that succeeded,
    if the file of [k] exists and the load function of [k] reads [v] from
    it, then a store constructed afterwards returns [v] for [get(k)]. *)
Theorem disk_persistence (doc : pyval) (schema : gmap string schema_item)
    (h h1 h2 : gmap loc (gmap string pyval)) (f : gmap string fnode)
    (d d2 : ModalDict) (s1 : dstate) (k p : string) (v : pyval) (lf : load_fn) :
  DiskDict_init doc schema h f = (Ok d, h1) →
  k ∈ keys d → paths d !! k = Some p → load_funcs d !! k = Some lf →
  __setitem__ k v (mkDState d h1 f) = (Ok tt, s1) →
  os_path_exists (fs s1) p = true → lf p (fs s1) = Ok v →
  DiskDict_init doc schema (heap s1) (fs s1) = (Ok d2, h2) →
  ∃ s2, __getitem__ k (mkDState d2 h2 (fs s1)) = (Ok v, s2).
Proof.
  intros Hinit Hk Hp Hlf Hset Hex Hload Hinit2.
  assert (Hroot : subscript (heap s1) doc "root" = subscript h doc "root").
  { pose proof (DocumentFrame.DiskDict_init_frame doc schema h f) as H1.
    rewrite Hinit in H1. simpl in H1.
    destruct (StoreFrame.frames_setitem k v (mkDState d h1 f)) as (_ & _ & H2).
    rewrite Hset in H2. simpl in H2.
    rewrite (only_present_subscript _ h1 (heap s1) doc "root" H2) by done.
    by rewrite (only_present_subscript _ h h1 doc "root" H1). }
  apply DiskDict_init_inv in Hinit as (Hc & Hkeys & _ & Hl & root & Hr & Hps).
  apply DiskDict_init_inv in Hinit2 as (Hc2 & Hkeys2 & Hd2 & Hl2 & root2 & Hr2 & Hps2).
  assert (keys d2 = keys d) as Hkk by congruence.
  rewrite Hroot, Hr in Hr2. injection Hr2 as <-.
  rewrite Hkk in Hl2, Hps2.
  assert (load_funcs d2 = load_funcs d) as HL by congruence.
  assert (paths d2 = paths d) as HP by congruence.
  eexists.
  rewrite (disk_getitem d2 h2 (fs s1) k p lf VNone); auto.
  - simpl. rewrite Hex, Hload. reflexivity.
  - unfold __contains__. rewrite Hkk. by apply bool_decide_eq_true_2.
  - by rewrite HP.
  - by rewrite HL.
  - rewrite Hd2, Hkk. by apply lookup_gset_to_gmap_Some.
Qed.

Lemma disk_persistence_witness :
  ∃ s2, __getitem__ "thumbnail"
          (mkDState Fixture.thumb_store Fixture.heap_thumb
             {[ Fixture.thumb_path := File "PNG" ]})
        = (Ok (VStr "PNG"), s2).
Proof.
  assert (H1 : DiskDict_init Fixture.doc Fixture.schema Fixture.heap0 Fixture.fs_thumb
               = (Ok Fixture.thumb_store, Fixture.heap_thumb))
    by (vm_compute; reflexivity).
  assert (H2 : __setitem__ "thumbnail" (VStr "PNG")
                 (mkDState Fixture.thumb_store Fixture.heap_thumb Fixture.fs_thumb)
               = (Ok tt, mkDState (with_data {[ "thumbnail" := VStr "PNG" ]}
                                             Fixture.thumb_store)
                                  Fixture.heap_thumb
                                  {[ Fixture.thumb_path := File "PNG" ]}))
    by (vm_compute; reflexivity).
  assert (H3 : DiskDict_init Fixture.doc Fixture.schema Fixture.heap_thumb
                 {[ Fixture.thumb_path := File "PNG" ]}
               = (Ok Fixture.thumb_store, Fixture.heap_thumb))
    by (vm_compute; reflexivity).
  exact (disk_persistence Fixture.doc Fixture.schema Fixture.heap0 Fixture.heap_thumb
           Fixture.heap_thumb Fixture.fs_thumb Fixture.thumb_store Fixture.thumb_store
           _ "thumbnail" Fixture.thumb_path (VStr "PNG") Fixture.read_text
           H1 ltac:(vm_compute; reflexivity) eq_refl eq_refl H2 eq_refl eq_refl H3).
Defined.

Lemma dict_comp_fail {V} (g : string → res V) ks k e :
  k ∈ ks → g k = Raise e → ∃ e', dict_comp g ks = Raise e'.
Proof.
  induction ks as [|k0 ks IH]; intros Hk Hg; [by apply elem_of_nil in Hk|].
  simpl. destruct (g k0) as [v0|e0] eqn:E0; [|eauto].
  apply elem_of_cons in Hk as [->|Hk]; [congruence|].
  destruct (IH Hk Hg) as [e' ->]. eauto.
Qed.

(** X14: a constructor fails, before it writes anything, when the
    document lacks what a declared key needs: the [MemoryDict] when
    [mongo_doc['items'][k]['data']] cannot be read for a key of mode
    ['memory'], the [DiskDict] when [mongo_doc['items'][k]] cannot be read
    for a key of mode ['disk']. *)
Theorem init_missing_item (doc : pyval) (schema : gmap string schema_item)
    (h : gmap loc (gmap string pyval)) (f : gmap string fnode) (k : string) (e : exn) :
  (k ∈ schema_keys MemoryDict schema → doc_item_data h doc k = Raise e →
   ∃ e', MemoryDict_init doc schema h f = (Raise e', h))
  ∧ (k ∈ schema_keys DiskDict schema → doc_item h doc k = Raise e →
     ∃ e', DiskDict_init doc schema h f = (Raise e', h)).
Proof.
  split; intros Hk He.
  - unfold MemoryDict_init.
    destruct (ModalDict_init MemoryDict doc schema h) as [d0|e0] eqn:E0; [|eauto].
    apply ModalDict_init_inv in E0 as (_ & Hkeys & _).
    destruct (dict_comp_fail (doc_item_data h doc) (elements (keys d0)) k e) as [e' ->];
      eauto.
    rewrite Hkeys. by apply elem_of_elements.
  - unfold DiskDict_init, ModalDict_init.
    destruct (dict_comp_fail (doc_item h doc)
                (elements (dom (filter (λ kv, s_mode kv.2 = mode DiskDict) schema))) k e)
      as [e' ->]; eauto.
    by apply elem_of_elements.
Qed.

Lemma init_missing_item_witness :
  ∃ e', MemoryDict_init Fixture.doc Fixture.schema
          (<[4%positive := ∅]> Fixture.heap0) Fixture.fs_empty
        = (Raise e', <[4%positive := ∅]> Fixture.heap0).
Proof.
  apply (proj1 (init_missing_item Fixture.doc Fixture.schema
                  (<[4%positive := ∅]> Fixture.heap0) Fixture.fs_empty "name"
                  (KeyError "data"))); vm_compute; reflexivity.
Defined.

End InitExtras.

(* ===================================================================== *)
(** * More on the registry                                                *)
(* ===================================================================== *)

Module RegistryExtras.

Import ChildContainer RegistryProps NormalizerProps.

Lemma to_raw_of_to_full c s :
  to_raw_id c (AStr (to_full_id c (AStr s))) = to_raw_id c (AStr s).
Proof.
  unfold to_full_id, is_raw_id. simpl.
  destruct (is_full_id c s) eqn:E; simpl; [done|].
  unfold to_raw_id, is_full_id. simpl.
  rewrite startswith_app, slice_from_app. unfold is_full_id in E. by rewrite E.
Qed.

(** X15: the two normalizers undo each other where they can:
    [to_raw_id(to_full_id(s))] is [to_raw_id(s)], which is [s] itself for
    a raw [s]; [to_full_id(s)] always starts with the parent's prefix; and
    for a full [s] whose remainder is raw, [to_full_id(to_raw_id(s))] is
    [s]. *)
Theorem normalizers_round_trip (c : ChildContainer) (s : string) :
  to_raw_id c (AStr (to_full_id c (AStr s))) = to_raw_id c (AStr s)
  ∧ (is_raw_id c s = true → to_raw_id c (AStr (to_full_id c (AStr s))) = s)
  ∧ is_full_id c (to_full_id c (AStr s)) = true
  ∧ (is_full_id c s = true → is_raw_id c (to_raw_id c (AStr s)) = true →
     to_full_id c (AStr (to_raw_id c (AStr s))) = s).
Proof.
  split; [apply to_raw_of_to_full|].
  split; [intros Hraw; rewrite to_raw_of_to_full; by apply to_raw_id_on_raw|].
  split; [apply to_full_id_is_full|].
  intros Hfull Hraw. unfold to_full_id. simpl. rewrite Hraw.
  symmetry. by apply to_raw_id_on_full.
Qed.

Lemma normalizers_round_trip_witness :
  to_raw_id Fixture.video_children (AStr (to_full_id Fixture.video_children (AStr "7"))) = "7"
  ∧ to_full_id Fixture.video_children
      (AStr (to_raw_id Fixture.video_children (AStr "video_1/7"))) = "video_1/7".
Proof.
  destruct (normalizers_round_trip Fixture.video_children "7") as (_ & H2 & _).
  destruct (normalizers_round_trip Fixture.video_children "video_1/7") as (_ & _ & _ & H4).
  split; [apply H2 | apply H4]; reflexivity.
Defined.

Lemma sanitize_full_form c a0 s :
  sanitize c [a0; AStr (to_full_id c (AStr s))] = sanitize c [a0; AStr s]
  ∧ sanitize c [AStr (to_full_id c (AStr s))] = sanitize c [AStr s].
Proof. unfold sanitize. by rewrite to_raw_of_to_full. Qed.

(** X16: [get] and [add] take the raw and the full form of an id alike:
    called with [to_full_id(s)] they do what they do with [s], in the form
    with a datatype and in the form without. *)
Theorem full_and_raw_forms_alike (c : ChildContainer) (a0 : pyarg) (s : string)
    (h : gmap loc (gmap string pyval)) :
  add c [a0; AStr (to_full_id c (AStr s))] h = add c [a0; AStr s] h
  ∧ get c [a0; AStr (to_full_id c (AStr s))] h = get c [a0; AStr s] h
  ∧ add c [AStr (to_full_id c (AStr s))] h = add c [AStr s] h
  ∧ get c [AStr (to_full_id c (AStr s))] h = get c [AStr s] h.
Proof.
  destruct (sanitize_full_form c a0 s) as [H2 H1].
  unfold add, get, bind, lift_res. by rewrite H1, H2.
Qed.

(** X17: on a document that has a table for every declared datatype,
    [add] is idempotent: the same [add] again returns the same and leaves
    the document as the first one left it. *)
Theorem add_idempotent (c : ChildContainer) (args : list pyarg)
    (h : gmap loc (gmap string pyval)) :
  registry_ok c h = true →
  add c args (add c args h).2 = add c args h.
Proof.
  intros Hok. destruct (sanitize c args) as [[x raw]|e] eqn:Hs.
  - apply SanitizeProps.sanitize_ok in Hs as Hx.
    destruct Hx as (t & a & -> & Hin & _ & _).
    destruct (has_table_inv c h t) as (lt & dt & Hl & Ht & Hne);
      [by apply registry_ok_has_table|].
    rewrite (add_resolved c h args t raw lt dt); auto. simpl.
    rewrite (add_resolved c _ args t raw lt
               (<[raw := VStr (to_full_id c (AStr raw))]> dt)); auto.
    + by rewrite !insert_insert_eq.
    + by rewrite table_loc_insert.
    + by rewrite lookup_insert_eq.
  - unfold add, bind, lift_res. rewrite Hs. simpl. by rewrite ?Hs.
Qed.

Lemma add_idempotent_witness :
  add Fixture.video_children [AStr "1"]
    (add Fixture.video_children [AStr "1"] Fixture.heap0).2
  = add Fixture.video_children [AStr "1"] Fixture.heap0.
Proof. apply add_idempotent. reflexivity. Defined.

(** X18: an error of the resolution is the error of [get] and of [add],
    and neither has then touched the document; on a document that has a
    table for every declared datatype, [add] fails in no other way. *)
Theorem resolution_errors_propagate (c : ChildContainer) (args : list pyarg)
    (h : gmap loc (gmap string pyval)) :
  (∀ e, sanitize c args = Raise e →
        get c args h = (Raise e, h) ∧ add c args h = (Raise e, h))
  ∧ (registry_ok c h = true →
     ∀ r, sanitize c args = Ok r → (add c args h).1 = Ok tt).
Proof.
  split.
  - intros e Hs. unfold get, add, bind, lift_res. by rewrite Hs.
  - intros Hok [x raw] Hs. apply SanitizeProps.sanitize_ok in Hs as Hx.
    destruct Hx as (t & a & -> & Hin & _ & _).
    destruct (has_table_inv c h t) as (lt & dt & Hl & Ht & Hne);
      [by apply registry_ok_has_table|].
    by rewrite (add_resolved c h args t raw lt dt).
Qed.

Lemma resolution_errors_propagate_witness :
  add Fixture.video_children [ACls Fixture.Annotation; AStr "1"] Fixture.heap0
  = (Raise (invalid_type_error Fixture.Annotation), Fixture.heap0)
  ∧ (add Fixture.video_children [ACls Fixture.Frame; AStr "1"] Fixture.heap0).1 = Ok tt.
Proof.
  split.
  - apply (proj1 (resolution_errors_propagate Fixture.video_children
                    [ACls Fixture.Annotation; AStr "1"] Fixture.heap0)).
    reflexivity.
  - apply (proj2 (resolution_errors_propagate Fixture.video_children
                    [ACls Fixture.Frame; AStr "1"] Fixture.heap0) eq_refl
             (ACls Fixture.Frame, "1")).
    reflexivity.
Defined.

(** X19: on a document that has a table for every declared datatype, an
    [add] changes the answer of [get] for the id it adds only: a [get]
    that resolves to another raw id, or to another table, returns after
    the [add] what it returned before. *)
Theorem add_leaves_other_children (c : ChildContainer) (args args' : list pyarg)
    (h : gmap loc (gmap string pyval)) (t t' : pyclass) (raw raw' : string) :
  registry_ok c h = true →
  sanitize c args = Ok (ACls t, raw) → sanitize c args' = Ok (ACls t', raw') →
  raw' ≠ raw ∨ table_loc c h t' ≠ table_loc c h t →
  (get c args' (add c args h).2).1 = (get c args' h).1.
Proof.
  intros Hok Hs Hs' Hdiff.
  apply SanitizeProps.sanitize_ok in Hs as Hx. destruct Hx as (? & a & [= <-] & Hin & _ & _).
  apply SanitizeProps.sanitize_ok in Hs' as Hx. destruct Hx as (? & a' & [= <-] & Hin' & _ & _).
  destruct (has_table_inv c h t) as (lt & dt & Hl & Ht & Hne);
    [by apply registry_ok_has_table|].
  destruct (has_table_inv c h t') as (lt' & dt' & Hl' & Ht' & Hne');
    [by apply registry_ok_has_table|].
  rewrite (add_resolved c h args t raw lt dt); auto. simpl.
  rewrite (get_resolved c h args' t' raw' lt' dt'); auto.
  destruct (decide (lt' = lt)) as [->|Hlt].
  - assert (dt' = dt) as -> by congruence.
    rewrite (get_resolved c _ args' t' raw' lt
               (<[raw := VStr (to_full_id c (AStr raw))]> dt)); auto.
    + simpl. rewrite lookup_insert_ne; [done|].
      destruct Hdiff as [Hr|Hr]; [congruence|]. rewrite Hl, Hl' in Hr. done.
    + by rewrite table_loc_insert.
    + by rewrite lookup_insert_eq.
  - rewrite (get_resolved c _ args' t' raw' lt' dt'); auto.
    + by rewrite table_loc_insert.
    + by rewrite lookup_insert_ne.
Qed.

Lemma add_leaves_other_children_witness :
  (get Fixture.video_children [AStr "1"]
     (add Fixture.video_children [AStr "2"] Fixture.heap_child).2).1
  = (get Fixture.video_children [AStr "1"] Fixture.heap_child).1.
Proof.
  apply (add_leaves_other_children Fixture.video_children [AStr "2"] [AStr "1"]
           Fixture.heap_child Fixture.Frame Fixture.Frame "2" "1");
    try reflexivity.
  left. discriminate.
Defined.

(** X20: [__init__] reads the document and checks one thing, that the
    dictionary under ['children'] has a key for the name of every
    declared datatype: it returns the container over that dictionary when
    it has, fails the assertion when it has not, and raises the error of
    the lookup when the document has no ['children']. *)
Theorem init_checks_tables (parent : string) (ts : list pyclass) (doc : pyval)
    (h : gmap loc (gmap string pyval)) :
  (∀ e, subscript h doc "children" = Raise e → __init__ parent ts doc h = Raise e)
  ∧ (∀ lc dc, subscript h doc "children" = Ok (VRef lc) → h !! lc = Some dc →
       __init__ parent ts doc h
       = if forallb (λ t, bool_decide (cls_name t ∈ dom dc)) ts
         then Ok (built parent ts (VRef lc))
         else Raise AssertionError).
Proof.
  split.
  - intros e He. unfold __init__. by rewrite He.
  - intros lc dc Hc Hlc. unfold __init__. rewrite Hc.
    assert (Ha : assert_tables h (VRef lc) ts
                 = if forallb (λ t, bool_decide (cls_name t ∈ dom dc)) ts
                   then Ok tt else Raise AssertionError).
    { induction ts as [|t ts IH]; simpl; [done|]. rewrite Hlc.
      destruct (bool_decide (cls_name t ∈ dom dc)); simpl; [exact IH | done]. }
    rewrite Ha. by destruct (forallb _ ts).
Qed.

Lemma init_checks_tables_witness :
  __init__ "video_1" [Fixture.Frame; Fixture.Annotation] Fixture.doc Fixture.heap0
  = Raise AssertionError.
Proof.
  etransitivity.
  - apply (proj2 (init_checks_tables "video_1" [Fixture.Frame; Fixture.Annotation]
                    Fixture.doc Fixture.heap0) 3%positive {[ "Frame" := VRef 6 ]});
      reflexivity.
  - reflexivity.
Defined.

Lemma table_loc_by_name c h t1 t2 :
  cls_name t1 = cls_name t2 → table_loc c h t1 = table_loc c h t2.
Proof. unfold table_loc. by intros ->. Qed.

(** X21: the tables are kept by the name of the datatype: when two
    declared datatypes have the same [__name__], a child added under one
    is found under the other. *)
Theorem same_name_shares_table (c : ChildContainer) (h : gmap loc (gmap string pyval))
    (t1 t2 : pyclass) (i : pyarg) :
  registry_ok c h = true → t1 ∈ childtypes c → t2 ∈ childtypes c →
  cls_name t1 = cls_name t2 →
  get c [ACls t2; i] (add c [ACls t1; i] h).2
  = (Ok (ACls t2, VStr (to_full_id c (AStr (to_raw_id c i)))), (add c [ACls t1; i] h).2).
Proof.
  intros Hok H1 H2 Hname.
  pose proof (SanitizeProps.sanitize_two_valid c t1 i H1) as Hs1.
  pose proof (SanitizeProps.sanitize_two_valid c t2 i H2) as Hs2.
  apply entry_get; [done|].
  destruct (entry_after_add c h _ t1 _ Hok Hs1) as (lt & dt & Hl & Ht & Hr).
  exists lt, dt. split; [|done]. by rewrite <- (table_loc_by_name c _ t1 t2).
Qed.

Lemma same_name_shares_table_witness :
  get Fixture.two_frames_children [ACls Fixture.OtherFrame; AStr "1"]
    (add Fixture.two_frames_children [ACls Fixture.Frame; AStr "1"] Fixture.heap0).2
  = (Ok (ACls Fixture.OtherFrame, VStr "video_1/1"),
     (add Fixture.two_frames_children [ACls Fixture.Frame; AStr "1"] Fixture.heap0).2).
Proof.
  apply (same_name_shares_table Fixture.two_frames_children Fixture.heap0
           Fixture.Frame Fixture.OtherFrame (AStr "1")).
  - reflexivity.
  - apply list_elem_of_here.
  - apply list_elem_of_further, list_elem_of_here.
  - reflexivity.
Defined.

End RegistryExtras.

(* ===================================================================== *)
(** * Stores stay set up; calls on different keys                         *)
(* ===================================================================== *)

Module InvariantExtras.

Import ModalDicts StoreProps.

Lemma store_ok_iff d h :
  store_ok d h = true ↔ ∀ k, k ∈ keys d → key_ok d h k = true.
Proof.
  unfold store_ok. rewrite forallb_forall. split.
  - intros H k Hk. by apply H, list_elem_of_In, elem_of_elements.
  - intros H k Hk. by apply H, elem_of_elements, list_elem_of_In.
Qed.

(** X22: a constructor that returns leaves every declared key set up:
    its metadata is a dictionary of the document, the cache has an entry
    for it and, in a [DiskDict], it has a path, a load function and an
    entry for the save function. *)
Theorem constructed_store_is_set_up (doc : pyval) (schema : gmap string schema_item)
    (h h' : gmap loc (gmap string pyval)) (f : gmap string fnode) (d : ModalDict) :
  MemoryDict_init doc schema h f = (Ok d, h') ∨ DiskDict_init doc schema h f = (Ok d, h') →
  store_ok d h' = true.
Proof.
  intros [H|H]; apply store_ok_iff.
  - by apply (StoreInvariant.MemoryDict_init_ok doc schema h f).
  - by apply (StoreInvariant.DiskDict_init_ok doc schema h f).
Qed.

Lemma constructed_store_is_set_up_witness :
  store_ok Fixture.thumb_store Fixture.heap_thumb = true.
Proof.
  apply (constructed_store_is_set_up Fixture.doc Fixture.schema Fixture.heap0
           Fixture.heap_thumb Fixture.fs_thumb).
  right. vm_compute. reflexivity.
Defined.

(** X23: a store that is set up stays set up through any sequence of
    calls that all return normally. *)
Theorem calls_keep_store_set_up (cs : list call) (s : dstate) :
  Forall (λ r, ∃ a, r = Ok a) (run_calls cs s).1 →
  store_ok (self s) (heap s) = true →
  store_ok (self (run_calls cs s).2) (heap (run_calls cs s).2) = true.
Proof.
  revert s. induction cs as [|c cs IH]; intros s Hall Hok; [done|].
  rewrite StoreFrame.store_calls_cons.
  simpl in Hall.
  pose proof (StoreFrame.frames_run_call c s) as (HK & _ & _).
  pose proof (StoreInvariant.key_ok_run_call c s) as Hstep.
  destruct (run_call c s) as [r s1]. simpl in *.
  destruct (run_calls cs s1) as [rs s2] eqn:E. simpl in *.
  apply Forall_cons in Hall as [[a ->] Hall].
  specialize (IH s1). rewrite E in IH. apply IH; [done|].
  apply store_ok_iff. intros k Hk. apply (Hstep a); [done|].
  rewrite HK in Hk. by apply (proj1 (store_ok_iff _ _) Hok).
Qed.

Lemma calls_keep_store_set_up_witness :
  store_ok
    (self (run_calls [Set_ "thumbnail" (VStr "PNG"); Get "thumbnail"; Del "thumbnail"]
             (mkDState Fixture.thumb_store Fixture.heap_thumb Fixture.fs_empty)).2)
    (heap (run_calls [Set_ "thumbnail" (VStr "PNG"); Get "thumbnail"; Del "thumbnail"]
             (mkDState Fixture.thumb_store Fixture.heap_thumb Fixture.fs_empty)).2)
  = true.
Proof.
  apply calls_keep_store_set_up; [|reflexivity].
  vm_compute. repeat constructor; eexists; reflexivity.
Defined.

Lemma memory_getitem_result d h f k :
  cls d = MemoryDict →
  (__getitem__ k (mkDState d h f)).1
  = if __contains__ d k
    then match data d !! k with
         | Some v => Ok v
         | None => Raise (KeyError k)
         end
    else Raise (KeyError ("No such item: " +:+ k)).
Proof.
  intros Hcls. unfold __getitem__, bind, detect_keyerror. simpl.
  destruct (__contains__ d k) eqn:Hc; [|done].
  unfold get_item. simpl. rewrite Hcls.
  unfold MemoryDict_get_item, bind, detect_keyerror, data_get. simpl. rewrite Hc.
  simpl. destruct (data d !! k); reflexivity.
Qed.

(** X24: in a [MemoryDict], [set] and [delete] on one declared key leave
    the answer of [get] for every other key as it was. *)
Theorem memory_other_key_untouched (d : ModalDict) (h : gmap loc (gmap string pyval))
    (f : gmap string fnode) (k k' : string) (v : pyval) :
  cls d = MemoryDict → key_ok d h k = true → k' ≠ k →
  (__getitem__ k' (__setitem__ k v (mkDState d h f)).2).1
  = (__getitem__ k' (mkDState d h f)).1
  ∧ (__getitem__ k' (__delitem__ k (mkDState d h f)).2).1
    = (__getitem__ k' (mkDState d h f)).1.
Proof.
  intros Hcls (Hc & (l & o & Hm & Hl) & _ & _)%key_ok_inv Hne.
  rewrite (memory_setitem d h f k v l o), (memory_delitem d h f k l o); auto. simpl.
  rewrite !memory_getitem_result by done. simpl.
  unfold __contains__. simpl. by rewrite !lookup_insert_ne.
Qed.

Lemma memory_other_key_untouched_witness :
  (__getitem__ "title"
     (__setitem__ "name" (VStr "x")
        (mkDState Fixture.name_store Fixture.heap_name Fixture.fs_empty)).2).1
  = (__getitem__ "title" (mkDState Fixture.name_store Fixture.heap_name Fixture.fs_empty)).1.
Proof.
  apply (memory_other_key_untouched Fixture.name_store Fixture.heap_name Fixture.fs_empty
           "name" "title" (VStr "x")); try reflexivity.
  discriminate.
Defined.

(** X25: in a [MemoryDict], unlike in a [DiskDict], [delete] of a
    declared key never fails and is idempotent: the second [delete] returns
    normally and leaves the state of the first. *)
Theorem memory_delete_idempotent (d : ModalDict) (h : gmap loc (gmap string pyval))
    (f : gmap string fnode) (k : string) :
  cls d = MemoryDict → key_ok d h k = true →
  ∃ s1, __delitem__ k (mkDState d h f) = (Ok tt, s1)
        ∧ __delitem__ k s1 = (Ok tt, s1).
Proof.
  intros Hcls (Hc & (l & o & Hm & Hl) & _ & _)%key_ok_inv.
  eexists. split; [by apply memory_delitem with (l := l) (o := o)|].
  rewrite (memory_delitem _ _ _ k l (<["present" := VBool false]> o)); auto.
  - simpl. unfold with_data. simpl. by rewrite !insert_insert_eq.
  - by rewrite lookup_insert_eq.
Qed.

Lemma memory_delete_idempotent_witness :
  ∃ s1, __delitem__ "name"
          (mkDState Fixture.name_store Fixture.heap_name Fixture.fs_empty) = (Ok tt, s1)
        ∧ __delitem__ "name" s1 = (Ok tt, s1).
Proof.
  apply (memory_delete_idempotent Fixture.name_store Fixture.heap_name Fixture.fs_empty
           "name"); reflexivity.
Defined.

(** X26: in a [DiskDict], after a [delete(k)] that succeeded, [get(k)]
    returns the sentinel and loads nothing: the cache holds [None] and the
    file is gone. *)
Theorem disk_delete_then_get (d : ModalDict) (h : gmap loc (gmap string pyval))
    (f : gmap string fnode) (k p content : string) :
  cls d = DiskDict → key_ok d h k = true →
  paths d !! k = Some p → f !! p = Some (File content) →
  ∃ s1, __delitem__ k (mkDState d h f) = (Ok tt, s1)
        ∧ __getitem__ k s1 = (Ok VNone, s1).
Proof.
  intros Hcls Hok Hp Hf. pose proof Hok as Hok'.
  apply key_ok_inv in Hok as (Hc & (l & o & Hm & Hl) & (v & Hd) & Hdisk).
  destruct (Hdisk Hcls) as (_ & (lf & Hlf) & _).
  pose proof (disk_delitem d h f k p l o v Hcls Hc Hm Hl Hp Hd) as H1.
  unfold os_remove in H1. rewrite Hf in H1. simpl in H1.
  eexists. split; [exact H1|].
  rewrite (disk_getitem _ _ _ k p lf VNone); auto.
  - simpl. unfold os_path_exists. by rewrite lookup_delete_eq.
  - simpl. by rewrite lookup_insert_eq.
Qed.

Lemma disk_delete_then_get_witness :
  ∃ s1, __delitem__ "thumbnail"
          (mkDState Fixture.thumb_store Fixture.heap_thumb Fixture.fs_thumb) = (Ok tt, s1)
        ∧ __getitem__ "thumbnail" s1 = (Ok VNone, s1).
Proof.
  apply (disk_delete_then_get Fixture.thumb_store Fixture.heap_thumb Fixture.fs_thumb
           "thumbnail" Fixture.thumb_path "JFIF"); reflexivity.
Defined.

End InvariantExtras.
